(** * Secure UDP transport: framing, AEAD wrapper, sender ledger, receiver loop

    A shallow embedding of the C++ sources of the secure-UDP projects
    (crypto/aes_gcm.cpp in its libsodium and its OpenSSL version,
    net/sender.cpp with and without the outstanding-packet ledger,
    net/receiver.cpp), with the properties the design document states
    about them.

    Bytes ([uint8_t], [char]) are integers in [0, 256); [uint32_t] and
    [uint64_t] values are integers with their wrap-around written out.
    [std::vector<uint8_t>] and [std::string] are lists of bytes. *)

From Stdlib Require Import ZArith List Lia Bool.
From stdpp Require Import base gmap list.
Import ListNotations.

Local Open Scope Z_scope.

(** ** Bytes and fixed-width integers *)

Definition u8 (z : Z) : Z := z mod 2 ^ 8.
Definition u32 (z : Z) : Z := z mod 2 ^ 32.
Definition u64 (z : Z) : Z := z mod 2 ^ 64.

(** Byte-wise exclusive or of a buffer with a key stream.  The result has
    the length of the buffer; a stream that ends early counts as zeros. *)
Fixpoint xor_bytes (buf stream : list Z) : list Z :=
  match buf with
  | [] => []
  | b :: buf' =>
      match stream with
      | [] => b :: buf'
      | k :: stream' => Z.lxor b k :: xor_bytes buf' stream'
      end
  end.

(** Big-endian value of a byte string, as the GCM specification reads
    blocks and counters. *)
Definition be_combine (l : list Z) : Z :=
  fold_left (fun acc b => Z.lor (Z.shiftl acc 8) b) l 0.

Fixpoint be_split (n : nat) (z : Z) : list Z :=
  match n with
  | O => []
  | S n' => be_split n' (Z.shiftr z 8) ++ [Z.land z 255]
  end.

(** ** The external cipher: AES-256 (FIPS 197)

    Both crypto libraries the sources link against (libsodium's
    [crypto_aead_aes256gcm_*] and OpenSSL's [EVP_aes_256_gcm]) compute
    AES-256 in Galois/Counter Mode.  The cipher is modelled by its
    standard so that concrete packets can be computed. *)
Module AES.

Definition xtime (b : Z) : Z :=
  Z.land (Z.lxor (Z.shiftl b 1) (if Z.testbit b 7 then 27 else 0)) 255.

Fixpoint gmul_loop (n : nat) (a b acc : Z) : Z :=
  match n with
  | O => acc
  | S n' =>
      gmul_loop n' (xtime a) (Z.shiftr b 1)
        (if Z.testbit b 0 then Z.lxor acc a else acc)
  end.

Definition gmul (a b : Z) : Z := gmul_loop 8 a b 0.

Fixpoint gpow (n : nat) (a : Z) : Z :=
  match n with
  | O => 1
  | S n' => gmul a (gpow n' a)
  end.

Definition rotl8 (b : Z) (k : Z) : Z :=
  Z.land (Z.lor (Z.shiftl b k) (Z.shiftr b (8 - k))) 255.

Definition sbox_of (b : Z) : Z :=
  let x := gpow 254 b in
  Z.lxor x (Z.lxor (rotl8 x 1) (Z.lxor (rotl8 x 2)
    (Z.lxor (rotl8 x 3) (Z.lxor (rotl8 x 4) 99)))).

Definition sbox_table : list Z :=
  Eval vm_compute in List.map (fun i => sbox_of (Z.of_nat i)) (seq 0 256).

Definition sbox (b : Z) : Z := nth (Z.to_nat b) sbox_table 0.

Definition sub_bytes (st : list Z) : list Z := List.map sbox st.

Definition at_ (st : list Z) (i : nat) : Z := nth i st 0.

Definition shift_rows (st : list Z) : list Z :=
  List.map (fun i => at_ st (i mod 4 + 4 * ((i / 4 + i mod 4) mod 4))%nat)
    (seq 0 16).

Definition mix_column (a0 a1 a2 a3 : Z) : list Z :=
  [ Z.lxor (gmul a0 2) (Z.lxor (gmul a1 3) (Z.lxor a2 a3));
    Z.lxor a0 (Z.lxor (gmul a1 2) (Z.lxor (gmul a2 3) a3));
    Z.lxor a0 (Z.lxor a1 (Z.lxor (gmul a2 2) (gmul a3 3)));
    Z.lxor (gmul a0 3) (Z.lxor a1 (Z.lxor a2 (gmul a3 2))) ].

Definition mix_columns (st : list Z) : list Z :=
  flat_map (fun c => mix_column (at_ st (4 * c)) (at_ st (4 * c + 1))
                       (at_ st (4 * c + 2)) (at_ st (4 * c + 3)))
    (seq 0 4).

Definition add_round_key (st rk : list Z) : list Z := xor_bytes st rk.

(** Key schedule for a 256-bit key (Nk = 8, Nr = 14): sixty words, kept
    newest first while they are generated. *)
Definition rot_word (w : list Z) : list Z :=
  match w with
  | a :: rest => rest ++ [a]
  | [] => []
  end.

Fixpoint rcon (n : nat) : Z :=
  match n with
  | O => 0
  | S O => 1
  | S n' => xtime (rcon n')
  end.

Definition next_word (i : nat) (rev_ws : list (list Z)) : list Z :=
  let prev := nth 0 rev_ws [] in
  let back := nth 7 rev_ws [] in
  let temp :=
    if (i mod 8 =? 0)%nat then
      xor_bytes (List.map sbox (rot_word prev)) [rcon (i / 8); 0; 0; 0]
    else if (i mod 8 =? 4)%nat then List.map sbox prev
    else prev in
  xor_bytes back temp.

Fixpoint expand (n i : nat) (rev_ws : list (list Z)) : list (list Z) :=
  match n with
  | O => rev_ws
  | S n' => expand n' (S i) (next_word i rev_ws :: rev_ws)
  end.

Definition key_words (key : list Z) : list (list Z) :=
  List.map (fun i => firstn 4 (skipn (4 * i) key)) (seq 0 8).

Definition key_expansion (key : list Z) : list Z :=
  concat (rev (expand 52 8 (rev (key_words key)))).

Definition round_key (w : list Z) (r : nat) : list Z :=
  firstn 16 (skipn (16 * r) w).

Fixpoint rounds (n r : nat) (w st : list Z) : list Z :=
  match n with
  | O => st
  | S n' =>
      rounds n' (S r) w
        (add_round_key (mix_columns (shift_rows (sub_bytes st)))
           (round_key w r))
  end.

Definition encrypt_block (key block : list Z) : list Z :=
  let w := key_expansion key in
  let st := add_round_key block (round_key w 0) in
  let st := rounds 13 1 w st in
  add_round_key (shift_rows (sub_bytes st)) (round_key w 14).

End AES.

(** ** The external mode of operation: GCM (NIST SP 800-38D)

    Blocks are 128-bit integers read big-endian; bit 0 of the standard is
    the most significant one. *)
Module GCM.

Definition R : Z := Z.shiftl 225 120.

Fixpoint mul_loop (n : nat) (i : Z) (x v z : Z) : Z :=
  match n with
  | O => z
  | S n' =>
      mul_loop n' (i - 1) x
        (if Z.testbit v 0 then Z.lxor (Z.shiftr v 1) R else Z.shiftr v 1)
        (if Z.testbit x i then Z.lxor z v else z)
  end.

(** Multiplication in GF(2^128). *)
Definition mul (x y : Z) : Z := mul_loop 128 127 x y 0.

Definition pad16 (l : list Z) : list Z :=
  l ++ repeat 0 ((16 - length l mod 16) mod 16)%nat.

Fixpoint ghash_loop (n : nat) (h y : Z) (x : list Z) : Z :=
  match n with
  | O => y
  | S n' =>
      ghash_loop n' h (mul (Z.lxor y (be_combine (firstn 16 x))) h)
        (skipn 16 x)
  end.

Definition ghash (h : Z) (x : list Z) : Z :=
  ghash_loop (length x / 16)%nat h 0 x.

(** The counter block after [i] increments of its last 32 bits. *)
Definition counter_block (iv : list Z) (i : Z) : list Z :=
  iv ++ be_split 4 (u32 i).

Fixpoint key_stream (n : nat) (key iv : list Z) (i : Z) : list Z :=
  match n with
  | O => []
  | S n' =>
      AES.encrypt_block key (counter_block iv i)
        ++ key_stream n' key iv (i + 1)
  end.

Definition blocks_for (len : nat) : nat := ((len + 15) / 16)%nat.

(** GCTR over the message, starting at counter 2 (counter 1 is kept for
    the tag), for a 96-bit initialisation vector. *)
Definition ctr (key iv data : list Z) : list Z :=
  xor_bytes data (key_stream (blocks_for (length data)) key iv 2).

Definition tag (key iv aad ct : list Z) : list Z :=
  let h := be_combine (AES.encrypt_block key (repeat 0 16%nat)) in
  let s := ghash h (pad16 aad ++ pad16 ct
                      ++ be_split 8 (8 * Z.of_nat (length aad))
                      ++ be_split 8 (8 * Z.of_nat (length ct))) in
  xor_bytes (be_split 16 s) (AES.encrypt_block key (counter_block iv 1)).

Definition encrypt (key iv aad pt : list Z) : list Z * list Z :=
  let ct := ctr key iv pt in
  (ct, tag key iv aad ct).

Definition bytes_eqb (a b : list Z) : bool :=
  bool_decide (a = b).

Definition decrypt (key iv aad ct t : list Z) : option (list Z) :=
  if bytes_eqb t (tag key iv aad ct) then Some (ctr key iv ct) else None.

End GCM.

(** ** libsodium: the combined-mode AES-256-GCM calls

    [crypto_aead_aes256gcm_encrypt(c, &clen, m, mlen, ad, adlen, nsec, npub, k)]
    writes the ciphertext followed by the 16-byte tag and returns 0; on a
    CPU without the AES instructions it returns -1.  The nonce and key
    arguments are bare pointers: the call reads 12 and 32 bytes. *)
Module Sodium.

Definition crypto_aead_aes256gcm_KEYBYTES : nat := 32.
Definition crypto_aead_aes256gcm_NPUBBYTES : nat := 12.
Definition crypto_aead_aes256gcm_ABYTES : nat := 16.

Definition crypto_aead_aes256gcm_encrypt (available : bool)
    (m ad npub k : list Z) : option (list Z) :=
  if available then
    let '(c, t) :=
      GCM.encrypt (firstn crypto_aead_aes256gcm_KEYBYTES k)
        (firstn crypto_aead_aes256gcm_NPUBBYTES npub) ad m in
    Some (c ++ t)
  else None.

Definition crypto_aead_aes256gcm_decrypt (available : bool)
    (c ad npub k : list Z) : option (list Z) :=
  if available && (crypto_aead_aes256gcm_ABYTES <=? length c)%nat then
    let n := (length c - crypto_aead_aes256gcm_ABYTES)%nat in
    GCM.decrypt (firstn crypto_aead_aes256gcm_KEYBYTES k)
      (firstn crypto_aead_aes256gcm_NPUBBYTES npub) ad
      (firstn n c) (skipn n c)
  else None.

End Sodium.

(** ** OpenSSL: the EVP calls the OpenSSL version of aes_gcm.cpp makes

    A cipher context records what the calls have set and the data that
    went through it.  Every call returns its C result (1 on success)
    with the new context. *)
Module EVP.

Record CIPHER_CTX := {
  cipher_set : bool;              (* EVP_aes_256_gcm() was selected *)
  encrypting : bool;
  ctx_key : option (list Z);
  ctx_iv : option (list Z);
  ctx_aad : list Z;               (* associated data fed so far *)
  processed : list Z;             (* ciphertext bytes seen so far *)
  tag_buf : option (list Z)       (* tag computed, or tag expected *)
}.

(** [EVP_CIPHER_CTX_new]: a fresh context, or NULL when the allocation
    fails. *)
Definition CIPHER_CTX_new (alloc_ok : bool) : option CIPHER_CTX :=
  if alloc_ok then
    Some {| cipher_set := false; encrypting := false; ctx_key := None;
            ctx_iv := None; ctx_aad := []; processed := [];
            tag_buf := None |}
  else None.

(** [EVP_EncryptInit_ex] and [EVP_DecryptInit_ex]: [cipher] tells
    whether the cipher argument is given, [key] and [iv] are NULL
    ([None]) or pointers from which 32 and 12 bytes are read. *)
Definition CipherInit_ex (enc : bool) (ctx : CIPHER_CTX) (cipher : bool)
    (key iv : option (list Z)) : Z * CIPHER_CTX :=
  if cipher || cipher_set ctx then
    (1, {| cipher_set := true;
           encrypting := enc;
           ctx_key := match key with
                      | Some k => Some (firstn 32 k)
                      | None => if cipher then None else ctx_key ctx
                      end;
           ctx_iv := match iv with
                     | Some n => Some (firstn 12 n)
                     | None => if cipher then None else ctx_iv ctx
                     end;
           ctx_aad := [];
           processed := [];
           tag_buf := None |})
  else (0, ctx).

Definition EncryptInit_ex := CipherInit_ex true.
Definition DecryptInit_ex := CipherInit_ex false.

Definition with_processed (ctx : CIPHER_CTX) (d : list Z) : CIPHER_CTX :=
  {| cipher_set := cipher_set ctx; encrypting := encrypting ctx;
     ctx_key := ctx_key ctx; ctx_iv := ctx_iv ctx; ctx_aad := ctx_aad ctx;
     processed := d; tag_buf := tag_buf ctx |}.

Definition with_tag (ctx : CIPHER_CTX) (t : option (list Z)) : CIPHER_CTX :=
  {| cipher_set := cipher_set ctx; encrypting := encrypting ctx;
     ctx_key := ctx_key ctx; ctx_iv := ctx_iv ctx; ctx_aad := ctx_aad ctx;
     processed := processed ctx; tag_buf := t |}.

(** [EVP_EncryptUpdate(ctx, NULL, &outl, aad, len)]: with a NULL output
    buffer the input is associated data.  It is the only way a caller
    gets header bytes under the tag. *)
Definition CipherUpdate_aad (ctx : CIPHER_CTX) (aad : list Z)
    : Z * CIPHER_CTX :=
  match ctx_key ctx, ctx_iv ctx with
  | Some _, Some _ =>
      (1, {| cipher_set := cipher_set ctx; encrypting := encrypting ctx;
             ctx_key := ctx_key ctx; ctx_iv := ctx_iv ctx;
             ctx_aad := ctx_aad ctx ++ aad;
             processed := processed ctx; tag_buf := tag_buf ctx |})
  | _, _ => (0, ctx)
  end.

(** [EVP_EncryptUpdate(ctx, out, &outl, in, inl)] and
    [EVP_DecryptUpdate]: the counter-mode stream continues where the
    previous call stopped.  Result: return value, bytes written, new
    context ([outl] is the number of bytes written). *)
Definition CipherUpdate (ctx : CIPHER_CTX) (input : list Z) (inl : Z)
    : Z * list Z * CIPHER_CTX :=
  match ctx_key ctx, ctx_iv ctx with
  | Some k, Some n =>
      if inl <? 0 then (0, [], ctx)
      else
        let data := firstn (Z.to_nat inl) input in
        let done := length (processed ctx) in
        let out := skipn done (GCM.ctr k n (repeat 0 done ++ data)) in
        (1, out,
         with_processed ctx
           (processed ctx ++ (if encrypting ctx then out else data)))
  | _, _ => (0, [], ctx)
  end.

Definition EncryptUpdate := CipherUpdate.
Definition DecryptUpdate := CipherUpdate.

(** [EVP_EncryptFinal_ex]: GCM writes no further bytes; the tag becomes
    available. *)
Definition EncryptFinal_ex (ctx : CIPHER_CTX) : Z * list Z * CIPHER_CTX :=
  match ctx_key ctx, ctx_iv ctx with
  | Some k, Some n =>
      if encrypting ctx
      then (1, [], with_tag ctx (Some (GCM.tag k n (ctx_aad ctx) (processed ctx))))
      else (0, [], ctx)
  | _, _ => (0, [], ctx)
  end.

(** [EVP_DecryptFinal_ex]: positive exactly when the expected tag was
    set and equals the tag of the data processed. *)
Definition DecryptFinal_ex (ctx : CIPHER_CTX) : Z * list Z * CIPHER_CTX :=
  match ctx_key ctx, ctx_iv ctx, tag_buf ctx with
  | Some k, Some n, Some t =>
      if negb (encrypting ctx)
         && GCM.bytes_eqb t (GCM.tag k n (ctx_aad ctx) (processed ctx))
      then (1, [], ctx) else (0, [], ctx)
  | _, _, _ => (0, [], ctx)
  end.

(** [EVP_CIPHER_CTX_ctrl(ctx, EVP_CTRL_GCM_GET_TAG, 16, buf)]. *)
Definition CIPHER_CTX_ctrl_GET_TAG (ctx : CIPHER_CTX) : Z * list Z :=
  match tag_buf ctx with
  | Some t => if encrypting ctx then (1, firstn 16 t) else (0, [])
  | None => (0, [])
  end.

(** [EVP_CIPHER_CTX_ctrl(ctx, EVP_CTRL_GCM_SET_TAG, 16, buf)]. *)
Definition CIPHER_CTX_ctrl_SET_TAG (ctx : CIPHER_CTX) (t : list Z)
    : Z * CIPHER_CTX :=
  if encrypting ctx then (0, ctx) else (1, with_tag ctx (Some (firstn 16 t))).

End EVP.

(** ** crypto/aes_gcm.cpp, libsodium version (project secure_udp)

    [bool aes_gcm_encrypt(key, nonce, plaintext, ciphertext&, tag&)]: the
    result is [None] for [false] and the two output vectors for [true].
    The library calls are parameters of the section, so that what is
    proved of the wrapper holds whatever the library answers. *)
Module SodiumImpl.
Section Wrapper.

(** [encrypt_call m ad npub k] and [decrypt_call c ad npub k]: the bytes
    the library wrote when it returned 0. *)
Variable encrypt_call : list Z -> list Z -> list Z -> list Z -> option (list Z).
Variable decrypt_call : list Z -> list Z -> list Z -> list Z -> option (list Z).

(** The wrapper, for the value [nonce.size()] is compared with; the
    source compares with [crypto_aead_aes256gcm_KEYBYTES], see
    [aes_gcm_encrypt] below.  The library gets no associated data
    ([nullptr, 0]); the last 16 bytes it wrote become the tag. *)
Definition aes_gcm_encrypt_at (nonce_size : nat)
    (key nonce plaintext : list Z) : option (list Z * list Z) :=
  if negb (length key =? Sodium.crypto_aead_aes256gcm_KEYBYTES)%nat then None
  else if negb (length nonce =? nonce_size)%nat then None
  else
    match encrypt_call plaintext [] nonce key with
    | None => None
    | Some c =>
        let clen := length c in
        let tag := skipn (clen - Sodium.crypto_aead_aes256gcm_ABYTES) c in
        let ciphertext :=
          firstn (clen - Sodium.crypto_aead_aes256gcm_ABYTES) c in
        Some (ciphertext, tag)
    end.

Definition aes_gcm_encrypt : list Z -> list Z -> list Z -> option (list Z * list Z) :=
  aes_gcm_encrypt_at Sodium.crypto_aead_aes256gcm_KEYBYTES.

(** [aes_gcm_decrypt]: ciphertext and tag are joined again for the
    library.  The last statement of the source,
    [plaintext.assign(static_cast<char*>(decrypted.data(), declen))], is
    not well-formed C++; it is read as the assignment of the [declen]
    bytes the library wrote. *)
Definition aes_gcm_decrypt_at (nonce_size : nat)
    (key nonce ciphertext tag : list Z) : option (list Z) :=
  if negb (length key =? Sodium.crypto_aead_aes256gcm_KEYBYTES)%nat then None
  else if negb (length nonce =? nonce_size)%nat then None
  else
    let combined := ciphertext ++ tag in
    decrypt_call combined [] nonce key.

Definition aes_gcm_decrypt : list Z -> list Z -> list Z -> list Z -> option (list Z) :=
  aes_gcm_decrypt_at Sodium.crypto_aead_aes256gcm_KEYBYTES.

End Wrapper.
End SodiumImpl.

(** ** crypto/aes_gcm.cpp, OpenSSL version (project secure_udp_example)

    [bool aes_gcm_encrypt(key, plaintext, nonce&, ciphertext&, tag&)]
    draws the nonce itself.  [alloc_ok] tells whether
    [EVP_CIPHER_CTX_new] returns a context, [rnd] is what [RAND_bytes]
    writes.  [key.data()] is handed over without a length check: the
    library reads 32 bytes. *)
Module OpenSSLImpl.

(** [size_t] to [int], as the calls convert [size()]. *)
Definition int_of_size (n : nat) : Z :=
  (Z.of_nat n + 2 ^ 31) mod 2 ^ 32 - 2 ^ 31.

Definition aes_gcm_encrypt (alloc_ok : bool) (rnd : list Z)
    (key plaintext : list Z) : option (list Z * list Z * list Z) :=
  let nonce := firstn 12 (rnd ++ repeat 0 12%nat) in
  match EVP.CIPHER_CTX_new alloc_ok with
  | None => None
  | Some ctx =>
      let '(r, ctx) := EVP.EncryptInit_ex ctx true None None in
      if r =? 0 then None
      else
        let '(_, ctx) := EVP.EncryptInit_ex ctx false (Some key) (Some nonce) in
        let '(r, out, ctx) :=
          EVP.EncryptUpdate ctx plaintext (int_of_size (length plaintext)) in
        if r =? 0 then None
        else
          let '(r, out', ctx) := EVP.EncryptFinal_ex ctx in
          if r =? 0 then None
          else
            let '(r, tag) := EVP.CIPHER_CTX_ctrl_GET_TAG ctx in
            if r =? 0 then None
            else Some (nonce, out ++ out', tag)
  end.

Definition aes_gcm_decrypt (alloc_ok : bool)
    (key nonce ciphertext tag : list Z) : option (list Z) :=
  match EVP.CIPHER_CTX_new alloc_ok with
  | None => None
  | Some ctx =>
      let '(r, ctx) := EVP.DecryptInit_ex ctx true None None in
      if r =? 0 then None
      else
        let '(_, ctx) := EVP.DecryptInit_ex ctx false (Some key) (Some nonce) in
        let '(r, out, ctx) :=
          EVP.DecryptUpdate ctx ciphertext (int_of_size (length ciphertext)) in
        if r =? 0 then None
        else
          let '(_, ctx) := EVP.CIPHER_CTX_ctrl_SET_TAG ctx tag in
          let '(ret, out', ctx) := EVP.DecryptFinal_ex ctx in
          if ret <=? 0 then None
          else Some (out ++ out')
  end.

End OpenSSLImpl.

(** ** Wire frame: [SEQ(4)][TIMESTAMP(8)][NONCE(12)][CIPHERTEXT][TAG(16)] *)

(** [for (i = 0; i < n; i++) packet.push_back((v >> (i*8)) & 0xff)] *)
Definition push_le (n : nat) (v : Z) : list Z :=
  List.map (fun i => Z.land (Z.shiftr v (Z.of_nat i * 8)) 255) (seq 0 n).

(** The packet both senders assemble. *)
Definition frame (seq timestamp : Z) (nonce ciphertext tag : list Z) : list Z :=
  push_le 4 seq ++ push_le 8 timestamp ++ nonce ++ ciphertext ++ tag.

(** [for (i = 0; i < 4; i++) seq |= (buffer[offset++] << (i * 8))]: the
    shift is done in [int] and the result stored in 32 bits. *)
Definition read_le32 (buffer : list Z) (offset : nat) : Z :=
  fold_left
    (fun acc i => Z.lor acc (u32 (Z.shiftl (nth (offset + i) buffer 0)
                                    (Z.of_nat i * 8))))
    (seq 0 4) 0.

(** [for (i = 0; i < 8; i++) timestamp |= (uint64_t(buffer[offset++]) << (i * 8))] *)
Definition read_le64 (buffer : list Z) (offset : nat) : Z :=
  fold_left
    (fun acc i => Z.lor acc (u64 (Z.shiftl (nth (offset + i) buffer 0)
                                    (Z.of_nat i * 8))))
    (seq 0 8) 0.

Record Packet := {
  pkt_seq : Z;
  pkt_timestamp : Z;
  pkt_nonce : list Z;
  pkt_cipher : list Z;
  pkt_tag : list Z
}.

(** The parsing of receiveThreadFunc: [len] bytes of the receive buffer,
    [None] when [len < 4 + 8 + 12 + 16]. *)
Definition parse (buffer : list Z) : option Packet :=
  let len := Z.of_nat (length buffer) in
  if len <? 4 + 8 + 12 + 16 then None
  else
    let seq := read_le32 buffer 0 in
    let timestamp := read_le64 buffer 4 in
    let offset := 12%nat in
    let nonce := firstn 12 (skipn offset buffer) in
    let offset := (offset + 12)%nat in
    let cipherLen := Z.to_nat (len - Z.of_nat offset - 16) in
    let cipher := firstn cipherLen (skipn offset buffer) in
    let tag := firstn 16 (skipn (offset + cipherLen) buffer) in
    Some {| pkt_seq := seq; pkt_timestamp := timestamp; pkt_nonce := nonce;
            pkt_cipher := cipher; pkt_tag := tag |}.

(** ** What the threads do, as a trace *)
Inductive Event :=
| EvLock                          (* mu_ acquired *)
| EvUnlock                        (* mu_ released *)
| EvWait                          (* cv_.wait(lock): released, blocked, re-acquired *)
| EvNotifyOne
| EvNotifyAll
| EvSendTo (packet : list Z)      (* sendto on the socket *)
| EvSleep (ms : Z)
| EvJoin
| EvClose
| EvStderr                        (* "Encryption failed" *)
| EvDecryptFailed (seq : Z)       (* "Decryption failed for packet seq=" *)
| EvCallback (plaintext : list Z) (* callback_(plaintext) *).

(** ** net/sender.cpp with the outstanding-packet ledger (project secure_udp)

    The file is compiled against crypto/aes_gcm.h and config/config.h:
    [aes_gcm_encrypt] is the function declared there and [SHARED_KEY] the
    configured key. *)
Module Sender.

Record SecureUdpSender := {
  seq_ : Z;                              (* std::atomic<uint32_t> *)
  unackedPackets_ : gmap Z (list Z);     (* unordered_map<uint32_t, string> *)
  running_ : bool
}.

(** State after the constructor. *)
Definition init : SecureUdpSender :=
  {| seq_ := 0; unackedPackets_ := ∅; running_ := true |}.

(** [generateNonce]: twelve draws of the byte distribution. *)
Definition generateNonce (draws : nat -> Z) : list Z :=
  List.map (fun i => u8 (draws i)) (seq 0 12).

(** Where the background thread stands. *)
Inductive LoopPc := AtWhile | InWait | Exited.

(** What a caller or the scheduler does next. *)
Inductive Op :=
| OpSend (draws : nat -> Z) (now : Z) (data : list Z)
| OpLoop
| OpStop.

Section Linked.

Variable SHARED_KEY : list Z.
Variable aes_gcm_encrypt : list Z -> list Z -> list Z -> option (list Z * list Z).

(** [send(data)]: [draws] feeds generateNonce, [now] is the
    steady_clock reading in milliseconds. *)
Definition send (draws : nat -> Z) (now : Z) (data : list Z)
    (s : SecureUdpSender) : bool * list Event * SecureUdpSender :=
  let currentSeq := seq_ s in
  let s := {| seq_ := u32 (seq_ s + 1);
              unackedPackets_ := unackedPackets_ s;
              running_ := running_ s |} in
  let nonce := generateNonce draws in
  match aes_gcm_encrypt SHARED_KEY nonce data with
  | None => (false, [EvStderr], s)
  | Some (cipherText, tag) =>
      let timestamp := u64 now in
      let packet := frame currentSeq timestamp nonce cipherText tag in
      (true, [EvLock; EvUnlock; EvNotifyOne],
       {| seq_ := seq_ s;
          unackedPackets_ := <[currentSeq := packet]> (unackedPackets_ s);
          running_ := running_ s |})
  end.

(** The sequence number a call of [send] in state [s] works with. *)
Definition currentSeq (s : SecureUdpSender) : Z := seq_ s.

(** The [for] loop of sendThreadFunc: one sendto per entry, the stored
    bytes as they are.  The order of an unordered_map is not specified; a
    sendto that fails is reported with perror and the loop goes on. *)
Definition resend_all (s : SecureUdpSender) : list Event :=
  List.map (fun p => EvSendTo (snd p)) (map_to_list (unackedPackets_ s)).

(** sendThreadFunc from [if (!running_) break;] on, [mu_] held. *)
Definition loop_body (s : SecureUdpSender) : list Event * LoopPc :=
  if running_ s then (resend_all s ++ [EvUnlock; EvSleep 100], AtWhile)
  else ([EvUnlock], Exited).

(** One scheduling of the background thread: from the loop test to the
    wait or through one iteration, or from the wake-up through the
    iteration. *)
Definition sendThreadFunc (pc : LoopPc) (s : SecureUdpSender)
    : list Event * LoopPc :=
  match pc with
  | AtWhile =>
      if running_ s then
        if bool_decide (unackedPackets_ s = ∅) then ([EvLock; EvWait], InWait)
        else let '(ev, pc') := loop_body s in (EvLock :: ev, pc')
      else ([], Exited)
  | InWait => loop_body s
  | Exited => ([], Exited)
  end.

(** [stop()] as one step: the flag, the notification, the join and the
    close.  The join is taken to return; the flag is written without
    [mu_], so in the code a resend pass under way goes on to its end. *)
Definition stop (s : SecureUdpSender) : list Event * SecureUdpSender :=
  if running_ s then
    ([EvNotifyAll; EvJoin; EvClose],
     {| seq_ := seq_ s; unackedPackets_ := unackedPackets_ s;
        running_ := false |})
  else ([], s).

(** The sender object together with its thread. *)
Definition step (op : Op) (st : SecureUdpSender * LoopPc)
    : list Event * (SecureUdpSender * LoopPc) :=
  let '(s, pc) := st in
  match op with
  | OpSend draws now data =>
      let '(_, ev, s') := send draws now data s in (ev, (s', pc))
  | OpLoop =>
      let '(ev, pc') := sendThreadFunc pc s in (ev, (s, pc'))
  | OpStop =>
      let '(ev, s') := stop s in (ev, (s', pc))
  end.

Fixpoint run (ops : list Op) (st : SecureUdpSender * LoopPc)
    : list Event * (SecureUdpSender * LoopPc) :=
  match ops with
  | [] => ([], st)
  | op :: ops' =>
      let '(ev, st') := step op st in
      let '(evs, st'') := run ops' st' in
      (ev ++ evs, st'')
  end.

(** The sequence numbers that consecutive calls of [send] work with. *)
Fixpoint assigned (inputs : list (((nat -> Z) * Z) * list Z))
    (s : SecureUdpSender) : list Z :=
  match inputs with
  | [] => []
  | (draws, now, data) :: rest =>
      currentSeq s :: assigned rest (snd (send draws now data s))
  end.

End Linked.
End Sender.

(** ** net/sender.cpp without ledger (project secure_udp_example) *)
Module ExampleSender.

Record SecureUdpSender := { sequence_ : Z (* uint32_t *) }.

Definition init : SecureUdpSender := {| sequence_ := 0 |}.

Section Linked.

Variable SHARED_KEY : list Z.

(** [send(message)]: [alloc_ok] and [rnd] as in the OpenSSL wrapper,
    [now] the system_clock reading in milliseconds. *)
Definition send (alloc_ok : bool) (rnd : list Z) (now : Z)
    (message : list Z) (s : SecureUdpSender)
    : list Event * SecureUdpSender :=
  match OpenSSLImpl.aes_gcm_encrypt alloc_ok rnd SHARED_KEY message with
  | None => ([EvStderr], s)
  | Some (nonce, ciphertext, tag) =>
      let seq := sequence_ s in
      let s := {| sequence_ := u32 (sequence_ s + 1) |} in
      let ts := u64 now in
      ([EvSendTo (frame seq ts nonce ciphertext tag)], s)
  end.

(** The sequence numbers that consecutive calls of [send] put on the
    wire; a call whose encryption fails takes none. *)
Fixpoint assigned (inputs : list (((bool * list Z) * Z) * list Z))
    (s : SecureUdpSender) : list Z :=
  match inputs with
  | [] => []
  | (alloc_ok, rnd, now, message) :: rest =>
      let '(ev, s') := send alloc_ok rnd now message s in
      match ev with
      | [EvSendTo _] => sequence_ s :: assigned rest s'
      | _ => assigned rest s'
      end
  end.

End Linked.
End ExampleSender.

(** ** net/receiver.cpp *)
Module Receiver.

Record SecureUdpReceiver := {
  running_ : bool;
  callback_ : bool        (* whether the std::function holds a target *)
}.

(** [recvfrom] into the 1500-byte buffer: a longer datagram is cut. *)
Definition recvfrom (datagram : list Z) : list Z := firstn 1500 datagram.

Section Linked.

Variable SHARED_KEY : list Z.
Variable aes_gcm_decrypt : list Z -> list Z -> list Z -> list Z -> option (list Z).

(** One turn of the loop of receiveThreadFunc on a received datagram. *)
Definition receive (r : SecureUdpReceiver) (datagram : list Z) : list Event :=
  let buffer := recvfrom datagram in
  let len := Z.of_nat (length buffer) in
  if len <=? 0 then []
  else
    match parse buffer with
    | None => []
    | Some p =>
        match aes_gcm_decrypt SHARED_KEY (pkt_nonce p) (pkt_cipher p)
                (pkt_tag p) with
        | None => [EvDecryptFailed (pkt_seq p)]
        | Some plaintext =>
            if callback_ r then [EvCallback plaintext] else []
        end
    end.

(** The loop over a batch of datagrams, with [running_] as it is found
    at every test of the loop during the batch.  (The loop tests the flag
    before it blocks in recvfrom: a datagram that arrives after the flag
    was cleared meanwhile is still processed; for that see
    [receive_turns].) *)
Definition receiveThreadFunc (r : SecureUdpReceiver)
    (datagrams : list (list Z)) : list Event :=
  if running_ r then flat_map (receive r) datagrams else [].

(** The plaintexts handed to the callback, in order. *)
Definition callbacks (trace : list Event) : list (list Z) :=
  flat_map (fun e => match e with EvCallback m => [m] | _ => [] end) trace.

End Linked.

Definition start (r : SecureUdpReceiver) (onMessage : bool) : SecureUdpReceiver :=
  {| running_ := true; callback_ := onMessage |}.

End Receiver.

(** ** Concrete runs

    A 32-byte key, the message "ping", and the programs linked the way
    the two projects link them. *)
Definition key32 : list Z := List.map Z.of_nat (seq 0 32).
Definition ping : list Z := [112; 105; 110; 103].
Definition zero_draws : nat -> Z := fun _ => 0.

(** secure_udp: sender.cpp over the libsodium wrapper, on a CPU where
    the library is available. *)
Definition sodium_encrypt : list Z -> list Z -> list Z -> option (list Z * list Z) :=
  SodiumImpl.aes_gcm_encrypt (Sodium.crypto_aead_aes256gcm_encrypt true).

(** The same wrapper with the nonce length the cipher takes. *)
Definition sodium_encrypt12 : list Z -> list Z -> list Z -> option (list Z * list Z) :=
  SodiumImpl.aes_gcm_encrypt_at (Sodium.crypto_aead_aes256gcm_encrypt true)
    Sodium.crypto_aead_aes256gcm_NPUBBYTES.

(** secure_udp_example: the packet its sender puts on the wire for
    "ping" as first message, with an all-zero nonce at time 1000. *)
Definition ping_packet : list Z :=
  Eval vm_compute in
    match ExampleSender.send key32 true (repeat 0 12%nat) 1000 ping
            ExampleSender.init with
    | ([EvSendTo p], _) => p
    | _ => []
    end.

Definition listening : Receiver.SecureUdpReceiver :=
  Receiver.start {| Receiver.running_ := false; Receiver.callback_ := false |} true.

(** The receiver of secure_udp_example. *)
Definition example_receive : list (list Z) -> list Event :=
  Receiver.receiveThreadFunc key32 (OpenSSLImpl.aes_gcm_decrypt true) listening.

(** ** Who holds [mu_] when the socket is written

    [io_held held trace]: for every [sendto] of the trace, in order,
    whether the thread holds the mutex at that moment; [held] tells
    whether it holds it when the trace starts. *)
Fixpoint io_held (held : bool) (trace : list Event) : list bool :=
  match trace with
  | [] => []
  | EvLock :: t => io_held true t
  | EvUnlock :: t => io_held false t
  | EvWait :: t => io_held true t
  | EvSendTo _ :: t => held :: io_held held t
  | _ :: t => io_held held t
  end.

(** The background thread holds the mutex when it resumes from the wait,
    not when it is at the loop test. *)
Definition pc_holds (pc : Sender.LoopPc) : bool :=
  match pc with
  | Sender.InWait => true
  | _ => false
  end.

(** A sender of secure_udp with one outstanding packet. *)
Definition one_outstanding : Sender.SecureUdpSender :=
  {| Sender.seq_ := 1;
     Sender.unackedPackets_ := {[ 0 := ping_packet ]};
     Sender.running_ := true |}.

(** The captured packet with its sequence number set to 7 and its
    timestamp to 99. *)
Definition tampered_packet : list Z :=
  push_le 4 7 ++ push_le 8 99 ++ skipn 12 ping_packet.

(** ** Reading traces *)

(** Whether the thread holds [mu_] when it goes on after a trace of its
    own, given whether it held it before: after [EvWait] it goes on with
    the mutex re-acquired (while it is blocked in the wait the mutex is
    free). *)
Fixpoint lock_after (held : bool) (trace : list Event) : bool :=
  match trace with
  | [] => held
  | EvLock :: t => lock_after true t
  | EvUnlock :: t => lock_after false t
  | EvWait :: t => lock_after true t
  | _ :: t => lock_after held t
  end.

(** For every sleep of the thread's own trace, whether the thread holds
    the mutex meanwhile. *)
Fixpoint sleep_held (held : bool) (trace : list Event) : list bool :=
  match trace with
  | [] => []
  | EvLock :: t => sleep_held true t
  | EvUnlock :: t => sleep_held false t
  | EvWait :: t => sleep_held true t
  | EvSleep _ :: t => held :: sleep_held held t
  | _ :: t => sleep_held held t
  end.

(** The packets written to the socket, in order. *)
Definition sent_packets (trace : list Event) : list (list Z) :=
  flat_map (fun e => match e with EvSendTo p => [p] | _ => [] end) trace.

(** The calls of send() among the operations. *)
Definition sends (ops : list Sender.Op) : nat :=
  length (List.filter
            (fun op => match op with Sender.OpSend _ _ _ => true | _ => false end)
            ops).

Definition bytes_in_range (l : list Z) : Prop :=
  Forall (fun b => 0 <= b < 256) l.

(** ** main.cpp (project secure_udp_example): the input loop

    The loop reads lines until the line "exit" and sends every other
    line.  [stdin] is the lines still to come, each with what the
    send() of that turn meets (allocation, random bytes, clock).  When the
    input ends without "exit" the loop never leaves: there is no result.
    What main does after the loop (receiver.stop(), which joins the
    receive thread) is not part of this. *)
Module Main.

Definition exit_line : list Z := [101; 120; 105; 116].

Section Linked.

Variable SHARED_KEY : list Z.

Fixpoint loop (stdin : list (((bool * list Z) * Z) * list Z))
    (sender : ExampleSender.SecureUdpSender)
    : option (list Event * ExampleSender.SecureUdpSender) :=
  match stdin with
  | [] => None
  | (alloc_ok, rnd, now, input) :: rest =>
      if bool_decide (input = exit_line) then Some ([], sender)
      else
        let '(ev, sender') :=
          ExampleSender.send SHARED_KEY alloc_ok rnd now input sender in
        match loop rest sender' with
        | None => None
        | Some (evs, sender'') => Some (ev ++ evs, sender'')
        end
  end.

(** The lines in front of the first "exit". *)
Fixpoint before_exit (lines : list (list Z)) : list (list Z) :=
  match lines with
  | [] => []
  | l :: rest => if bool_decide (l = exit_line) then [] else l :: before_exit rest
  end.

End Linked.
End Main.

(** The background thread alone, scheduled once for each of the states
    of the sender object it finds (other threads change the object in
    between): its own trace and where it stands at the end. *)
Fixpoint thread_run (pc : Sender.LoopPc) (views : list Sender.SecureUdpSender)
    : list Event * Sender.LoopPc :=
  match views with
  | [] => ([], pc)
  | s :: rest =>
      let '(ev, pc') := Sender.sendThreadFunc pc s in
      let '(evs, pc'') := thread_run pc' rest in
      (ev ++ evs, pc'')
  end.

(** Whether every entry of the map is a frame that carries its own key
    as sequence number, with a twelve-byte nonce. *)
Definition ledger_framed (s : Sender.SecureUdpSender) : Prop :=
  0 <= Sender.seq_ s < 2 ^ 32
  /\ forall k p,
       Sender.unackedPackets_ s !! k = Some p ->
       0 <= k < 2 ^ 32
       /\ read_le32 p 0 = k
       /\ exists ts nonce ct tag,
            p = frame k ts nonce ct tag /\ 0 <= ts < 2 ^ 64
            /\ length nonce = 12%nat.

(** The receive loop turn by turn: each turn is the value of [running_]
    that the loop test finds and the datagram that recvfrom then returns.
    The loop ends at the first test that finds the flag cleared. *)
Fixpoint receive_turns (key : list Z)
    (dec : list Z -> list Z -> list Z -> list Z -> option (list Z))
    (r : Receiver.SecureUdpReceiver) (turns : list (bool * list Z))
    : list Event :=
  match turns with
  | [] => []
  | (running, datagram) :: rest =>
      if running
      then Receiver.receive key dec r datagram ++ receive_turns key dec r rest
      else []
  end.

(** * Properties *)

(** ** Bytes *)

Lemma xor_bytes_length (buf stream : list Z) :
  length (xor_bytes buf stream) = length buf.
Proof.
  revert stream; induction buf as [|b buf IH]; intros [|k stream]; simpl; auto.
Qed.

Lemma xor_bytes_involutive (buf stream : list Z) :
  xor_bytes (xor_bytes buf stream) stream = buf.
Proof.
  revert stream; induction buf as [|b buf IH]; intros [|k stream]; simpl; auto.
  rewrite IH, Z.lxor_assoc, Z.lxor_nilpotent, Z.lxor_0_r; reflexivity.
Qed.

Lemma length_be_split (n : nat) (z : Z) : length (be_split n z) = n.
Proof.
  revert z; induction n as [|n IH]; intros z; simpl; auto.
  rewrite length_app, IH; simpl; lia.
Qed.

Lemma length_push_le (n : nat) (v : Z) : length (push_le n v) = n.
Proof. unfold push_le. rewrite length_map, length_seq. reflexivity. Qed.

(** One byte of a little-endian value, put back at its place. *)
Lemma byte_at_place_bits (v i w n : Z) :
  0 <= n -> 0 <= i -> 8 * i + 8 <= w ->
  Z.testbit (Z.shiftl (Z.land (Z.shiftr v (i * 8)) 255) (i * 8) mod 2 ^ w) n
  = (8 * i <=? n) && (n <? 8 * i + 8) && Z.testbit v n.
Proof.
  intros Hn Hi Hw.
  destruct (Z.leb_spec (8 * i) n) as [Hlo|Hlo];
    destruct (Z.ltb_spec n (8 * i + 8)) as [Hhi|Hhi]; simpl.
  - rewrite Z.mod_pow2_bits_low by lia.
    rewrite Z.shiftl_spec by lia.
    change 255 with (Z.ones 8).
    rewrite Z.land_spec, Z.ones_spec_low by lia.
    rewrite Z.shiftr_spec by lia.
    rewrite andb_true_r. f_equal. lia.
  - destruct (Z.lt_ge_cases n w) as [Hnw|Hnw].
    + rewrite Z.mod_pow2_bits_low by lia.
      rewrite Z.shiftl_spec by lia.
      change 255 with (Z.ones 8).
      rewrite Z.land_spec, Z.ones_spec_high by lia.
      apply andb_false_r.
    + apply Z.mod_pow2_bits_high. lia.
  - destruct (Z.lt_ge_cases n w) as [Hnw|Hnw].
    + rewrite Z.mod_pow2_bits_low by lia.
      rewrite Z.shiftl_spec by lia.
      apply Z.testbit_neg_r. lia.
    + apply Z.mod_pow2_bits_high. lia.
  - lia.
Qed.

Lemma testbit_above (v w n : Z) :
  0 <= v < 2 ^ w -> w <= n -> Z.testbit v n = false.
Proof.
  intros Hv Hn.
  assert (0 <= w) by (destruct (Z.lt_ge_cases w 0) as [H|H];
                      [rewrite Z.pow_neg_r in Hv by lia; lia | lia]).
  rewrite <- (Z.mod_small v (2 ^ w)) by lia.
  apply Z.mod_pow2_bits_high. lia.
Qed.

Ltac split_ranges :=
  repeat match goal with
         | |- context [?a <=? ?b] =>
             destruct (Z.leb_spec a b); try lia
         | |- context [?a <? ?b] =>
             destruct (Z.ltb_spec a b); try lia
         end.

Lemma read_le32_push_le (v : Z) (rest : list Z) :
  0 <= v < 2 ^ 32 -> read_le32 (push_le 4 v ++ rest) 0 = v.
Proof.
  intros Hv. unfold read_le32, push_le, u32; cbn [seq List.map app fold_left nth Nat.add].
  change (Z.of_nat 0) with 0. change (Z.of_nat 1) with 1.
  change (Z.of_nat 2) with 2. change (Z.of_nat 3) with 3.
  apply Z.bits_inj'; intros n Hn.
  rewrite !Z.lor_spec, Z.bits_0.
  rewrite !byte_at_place_bits by lia.
  destruct (Z.lt_ge_cases n 32) as [H32|H32].
  - destruct (Z.testbit v n); [|rewrite !andb_false_r; reflexivity].
    rewrite !andb_true_r. cbn [orb]. split_ranges; reflexivity.
  - rewrite (testbit_above v 32 n) by lia.
    rewrite !andb_false_r; reflexivity.
Qed.

Lemma read_le64_push_le (a b c d v : Z) (rest : list Z) :
  0 <= v < 2 ^ 64 ->
  read_le64 (a :: b :: c :: d :: push_le 8 v ++ rest) 4 = v.
Proof.
  intros Hv. unfold read_le64, push_le, u64; cbn [seq List.map app fold_left nth Nat.add].
  change (Z.of_nat 0) with 0. change (Z.of_nat 1) with 1.
  change (Z.of_nat 2) with 2. change (Z.of_nat 3) with 3.
  change (Z.of_nat 4) with 4. change (Z.of_nat 5) with 5.
  change (Z.of_nat 6) with 6. change (Z.of_nat 7) with 7.
  apply Z.bits_inj'; intros n Hn.
  rewrite !Z.lor_spec, Z.bits_0.
  rewrite !byte_at_place_bits by lia.
  destruct (Z.lt_ge_cases n 64) as [H64|H64].
  - destruct (Z.testbit v n); [|rewrite !andb_false_r; reflexivity].
    rewrite !andb_true_r. cbn [orb]. split_ranges; reflexivity.
  - rewrite (testbit_above v 64 n) by lia.
    rewrite !andb_false_r; reflexivity.
Qed.

(** ** Wire frame *)

Lemma length_frame (seq ts : Z) (nonce ct tag : list Z) :
  length (frame seq ts nonce ct tag)
  = (4 + 8 + length nonce + length ct + length tag)%nat.
Proof.
  unfold frame. rewrite !length_app, !length_push_le. lia.
Qed.

Lemma frame_header (seq ts : Z) (nonce ct tag : list Z) :
  frame seq ts nonce ct tag
  = (push_le 4 seq ++ push_le 8 ts) ++ nonce ++ ct ++ tag.
Proof. unfold frame. rewrite <- app_assoc. reflexivity. Qed.

Lemma parse_frame (seq ts : Z) (nonce ct tag : list Z) :
  0 <= seq < 2 ^ 32 -> 0 <= ts < 2 ^ 64 ->
  length nonce = 12%nat -> length tag = 16%nat ->
  parse (frame seq ts nonce ct tag)
  = Some {| pkt_seq := seq; pkt_timestamp := ts; pkt_nonce := nonce;
            pkt_cipher := ct; pkt_tag := tag |}.
Proof.
  intros Hseq Hts Hn Ht. unfold parse.
  rewrite length_frame, Hn, Ht.
  destruct (Z.ltb_spec (Z.of_nat (4 + 8 + 12 + length ct + 16)) (4 + 8 + 12 + 16));
    [lia|].
  f_equal.
  replace (Z.to_nat (Z.of_nat (4 + 8 + 12 + length ct + 16) - Z.of_nat (12 + 12) - 16))
    with (length ct) by lia.
  assert (Hhdr : length (push_le 4 seq ++ push_le 8 ts) = 12%nat)
    by (rewrite length_app, !length_push_le; reflexivity).
  assert (Hseq' : read_le32 (frame seq ts nonce ct tag) 0 = seq)
    by (unfold frame; apply read_le32_push_le; assumption).
  assert (Hts' : read_le64 (frame seq ts nonce ct tag) 4 = ts).
  { unfold frame. change (push_le 4 seq) with
      [Z.land (Z.shiftr seq (Z.of_nat 0 * 8)) 255;
       Z.land (Z.shiftr seq (Z.of_nat 1 * 8)) 255;
       Z.land (Z.shiftr seq (Z.of_nat 2 * 8)) 255;
       Z.land (Z.shiftr seq (Z.of_nat 3 * 8)) 255].
    cbn [app]. apply read_le64_push_le; assumption. }
  assert (Hnonce : firstn 12 (skipn 12 (frame seq ts nonce ct tag)) = nonce).
  { rewrite frame_header, drop_app_length' by (symmetry; exact Hhdr).
    apply take_app_length'. symmetry; exact Hn. }
  assert (Hct : firstn (length ct) (skipn (12 + 12) (frame seq ts nonce ct tag)) = ct).
  { rewrite frame_header, app_assoc, drop_app_length'
      by (rewrite length_app, Hhdr, Hn; reflexivity).
    apply take_app_length. }
  assert (Htag : firstn 16 (skipn (12 + 12 + length ct) (frame seq ts nonce ct tag)) = tag).
  { rewrite frame_header, !app_assoc, drop_app_length'
      by (rewrite !length_app, !length_push_le, Hn; reflexivity).
    apply take_ge. lia. }
  rewrite Hseq', Hts', Hnonce, Hct, Htag. reflexivity.
Qed.

(** ** Galois/Counter Mode *)

Lemma length_ctr (key iv data : list Z) :
  length (GCM.ctr key iv data) = length data.
Proof. apply xor_bytes_length. Qed.

Lemma ctr_involutive (key iv data : list Z) :
  GCM.ctr key iv (GCM.ctr key iv data) = data.
Proof.
  unfold GCM.ctr at 1. rewrite length_ctr.
  unfold GCM.ctr. apply xor_bytes_involutive.
Qed.

Lemma length_tag (key iv aad ct : list Z) :
  length (GCM.tag key iv aad ct) = 16%nat.
Proof. unfold GCM.tag. rewrite xor_bytes_length. apply length_be_split. Qed.

Lemma bytes_eqb_refl (a : list Z) : GCM.bytes_eqb a a = true.
Proof. unfold GCM.bytes_eqb. apply bool_decide_eq_true_2. reflexivity. Qed.

Lemma gcm_decrypt_encrypt (key iv aad pt : list Z) :
  GCM.decrypt key iv aad (fst (GCM.encrypt key iv aad pt))
    (snd (GCM.encrypt key iv aad pt)) = Some pt.
Proof.
  unfold GCM.decrypt, GCM.encrypt; cbn [fst snd].
  rewrite bytes_eqb_refl, ctr_involutive. reflexivity.
Qed.

(** libsodium's combined mode: what encrypt writes, decrypt opens. *)
Lemma sodium_round_trip (m ad npub k : list Z) :
  exists c,
    Sodium.crypto_aead_aes256gcm_encrypt true m ad npub k = Some c
    /\ length c = (length m + 16)%nat
    /\ Sodium.crypto_aead_aes256gcm_decrypt true c ad npub k = Some m.
Proof.
  unfold Sodium.crypto_aead_aes256gcm_encrypt,
    Sodium.crypto_aead_aes256gcm_decrypt, Sodium.crypto_aead_aes256gcm_ABYTES,
    Sodium.crypto_aead_aes256gcm_KEYBYTES,
    Sodium.crypto_aead_aes256gcm_NPUBBYTES, GCM.encrypt.
  set (key := firstn 32 k). set (iv := firstn 12 npub).
  exists (GCM.ctr key iv m ++ GCM.tag key iv ad (GCM.ctr key iv m)).
  split; [reflexivity|].
  rewrite length_app, length_ctr, length_tag. split; [reflexivity|].
  destruct (Nat.leb_spec 16 (length m + 16)) as [_|Hlt]; [|lia].
  cbn [andb].
  replace (length m + 16 - 16)%nat with (length m) by lia.
  rewrite take_app_length', drop_app_length' by (rewrite length_ctr; reflexivity).
  unfold GCM.decrypt. rewrite bytes_eqb_refl, ctr_involutive. reflexivity.
Qed.

(** ** The OpenSSL wrapper *)

Lemma int_of_size_small (n : nat) :
  Z.of_nat n < 2 ^ 31 -> OpenSSLImpl.int_of_size n = Z.of_nat n.
Proof.
  intros H. unfold OpenSSLImpl.int_of_size.
  rewrite Z.mod_small by lia. lia.
Qed.

Lemma cipher_update_fresh (enc : bool) (k n input : list Z) (aad : list Z) :
  Z.of_nat (length input) < 2 ^ 31 ->
  EVP.CipherUpdate
    {| EVP.cipher_set := true; EVP.encrypting := enc;
       EVP.ctx_key := Some k; EVP.ctx_iv := Some n; EVP.ctx_aad := aad;
       EVP.processed := []; EVP.tag_buf := None |}
    input (OpenSSLImpl.int_of_size (length input))
  = (1, GCM.ctr k n input,
     {| EVP.cipher_set := true; EVP.encrypting := enc;
        EVP.ctx_key := Some k; EVP.ctx_iv := Some n; EVP.ctx_aad := aad;
        EVP.processed := if enc then GCM.ctr k n input else input;
        EVP.tag_buf := None |}).
Proof.
  intros H. rewrite int_of_size_small by assumption.
  unfold EVP.CipherUpdate, EVP.with_processed; cbn -[GCM.ctr Z.to_nat].
  destruct (Z.ltb_spec (Z.of_nat (length input)) 0); [lia|].
  rewrite Nat2Z.id, firstn_all. reflexivity.
Qed.

Lemma openssl_encrypt_ok (rnd key pt : list Z) :
  Z.of_nat (length pt) < 2 ^ 31 ->
  let nonce := firstn 12 (rnd ++ repeat 0 12%nat) in
  let ct := GCM.ctr (firstn 32 key) (firstn 12 nonce) pt in
  OpenSSLImpl.aes_gcm_encrypt true rnd key pt
  = Some (nonce, ct, GCM.tag (firstn 32 key) (firstn 12 nonce) [] ct).
Proof.
  intros H nonce ct. unfold OpenSSLImpl.aes_gcm_encrypt.
  fold nonce.
  cbn [EVP.CIPHER_CTX_new EVP.EncryptInit_ex EVP.CipherInit_ex orb
       EVP.cipher_set EVP.ctx_key EVP.ctx_iv Z.eqb].
  unfold EVP.EncryptUpdate. rewrite cipher_update_fresh by assumption.
  fold ct.
  cbn [Z.eqb EVP.EncryptFinal_ex EVP.ctx_key EVP.ctx_iv EVP.encrypting
       EVP.with_tag EVP.CIPHER_CTX_ctrl_GET_TAG EVP.tag_buf EVP.processed
       EVP.ctx_aad].
  rewrite app_nil_r, take_ge by (rewrite length_tag; lia).
  reflexivity.
Qed.

Lemma openssl_decrypt_ok (key nonce ct tag : list Z) :
  Z.of_nat (length ct) < 2 ^ 31 ->
  OpenSSLImpl.aes_gcm_decrypt true key nonce ct tag
  = if GCM.bytes_eqb (firstn 16 tag)
         (GCM.tag (firstn 32 key) (firstn 12 nonce) [] ct)
    then Some (GCM.ctr (firstn 32 key) (firstn 12 nonce) ct)
    else None.
Proof.
  intros H. unfold OpenSSLImpl.aes_gcm_decrypt.
  cbn [EVP.CIPHER_CTX_new EVP.DecryptInit_ex EVP.CipherInit_ex orb
       EVP.cipher_set EVP.ctx_key EVP.ctx_iv Z.eqb].
  unfold EVP.DecryptUpdate. rewrite cipher_update_fresh by assumption.
  cbn [Z.eqb EVP.CIPHER_CTX_ctrl_SET_TAG EVP.encrypting EVP.with_tag
       EVP.DecryptFinal_ex EVP.ctx_key EVP.ctx_iv EVP.tag_buf EVP.processed
       EVP.ctx_aad EVP.cipher_set negb andb].
  destruct (GCM.bytes_eqb _ _); cbn [Z.leb Z.compare].
  - rewrite app_nil_r. reflexivity.
  - reflexivity.
Qed.

Lemma openssl_round_trip (rnd key pt : list Z) :
  Z.of_nat (length pt) < 2 ^ 31 ->
  exists nonce ct tag,
    OpenSSLImpl.aes_gcm_encrypt true rnd key pt = Some (nonce, ct, tag)
    /\ length nonce = 12%nat /\ length ct = length pt /\ length tag = 16%nat
    /\ OpenSSLImpl.aes_gcm_decrypt true key nonce ct tag = Some pt.
Proof.
  intros H. eexists _, _, _. split; [apply openssl_encrypt_ok; assumption|].
  split; [|split; [|split]].
  - rewrite length_take, length_app, repeat_length. lia.
  - apply length_ctr.
  - apply length_tag.
  - rewrite openssl_decrypt_ok by (rewrite length_ctr; assumption).
    rewrite take_ge by (rewrite length_tag; lia).
    rewrite bytes_eqb_refl, ctr_involutive. reflexivity.
Qed.

(** Whatever the allocation does, what encrypt returns is what it
    returns when the allocation succeeds. *)
Lemma openssl_encrypt_some (alloc_ok : bool) (rnd key pt : list Z)
    (out : list Z * list Z * list Z) :
  OpenSSLImpl.aes_gcm_encrypt alloc_ok rnd key pt = Some out ->
  OpenSSLImpl.aes_gcm_encrypt true rnd key pt = Some out.
Proof.
  destruct alloc_ok; [trivial|].
  unfold OpenSSLImpl.aes_gcm_encrypt; cbn [EVP.CIPHER_CTX_new]. discriminate.
Qed.

(** ** Sequence numbers *)

Lemma u32_succ_shift (z k : Z) : u32 (u32 (z + 1) + k) = u32 (z + (k + 1)).
Proof.
  unfold u32. rewrite Zplus_mod_idemp_l. f_equal. lia.
Qed.

Lemma u32_apart (z i j : Z) :
  0 < j - i < 2 ^ 32 -> u32 (z + i) <> u32 (z + j).
Proof.
  unfold u32. intros Hij Heq.
  assert (H : ((z + j) - (z + i)) mod 2 ^ 32 = 0)
    by (rewrite Zminus_mod, Heq, Z.sub_diag; reflexivity).
  replace (z + j - (z + i)) with (j - i) in H by lia.
  rewrite Z.mod_small in H by lia. lia.
Qed.

Lemma send_seq (key : list Z) enc draws (now : Z) (data : list Z)
    (s : Sender.SecureUdpSender) :
  Sender.seq_ (snd (Sender.send key enc draws now data s))
  = u32 (Sender.seq_ s + 1).
Proof.
  unfold Sender.send. destruct (enc key _ data) as [[c t]|]; reflexivity.
Qed.

Lemma length_assigned (key : list Z) enc inputs (s : Sender.SecureUdpSender) :
  length (Sender.assigned key enc inputs s) = length inputs.
Proof.
  revert s; induction inputs as [|[[d n] m] rest IH]; intros s; simpl; auto.
Qed.

Lemma nth_assigned (key : list Z) enc inputs (s : Sender.SecureUdpSender)
    (k : nat) :
  0 <= Sender.seq_ s < 2 ^ 32 -> (k < length inputs)%nat ->
  nth k (Sender.assigned key enc inputs s) 0 = u32 (Sender.seq_ s + Z.of_nat k).
Proof.
  revert s k; induction inputs as [|[[d n] m] rest IH]; intros s k Hs Hk.
  - simpl in Hk; lia.
  - destruct k as [|k]; cbn [Sender.assigned nth].
    + unfold Sender.currentSeq, u32. rewrite Z.add_0_r, Z.mod_small; lia.
    + cbn [length] in Hk. rewrite IH; [|rewrite send_seq; apply Z.mod_pos_bound; lia|lia].
      rewrite send_seq, u32_succ_shift. f_equal. lia.
Qed.

Lemma example_send_cases (key : list Z) (alloc_ok : bool) (rnd : list Z)
    (now : Z) (message : list Z) (s : ExampleSender.SecureUdpSender) :
  (exists nonce ct tag,
      ExampleSender.send key alloc_ok rnd now message s
      = ([EvSendTo (frame (ExampleSender.sequence_ s) (u64 now) nonce ct tag)],
         {| ExampleSender.sequence_ := u32 (ExampleSender.sequence_ s + 1) |}))
  \/ ExampleSender.send key alloc_ok rnd now message s = ([EvStderr], s).
Proof.
  unfold ExampleSender.send.
  destruct (OpenSSLImpl.aes_gcm_encrypt alloc_ok rnd key message)
    as [[[nonce ct] tag]|]; [left; eauto | right; reflexivity].
Qed.

Lemma nth_example_assigned (key : list Z) inputs
    (s : ExampleSender.SecureUdpSender) (k : nat) :
  0 <= ExampleSender.sequence_ s < 2 ^ 32 ->
  (k < length (ExampleSender.assigned key inputs s))%nat ->
  nth k (ExampleSender.assigned key inputs s) 0
  = u32 (ExampleSender.sequence_ s + Z.of_nat k).
Proof.
  revert s k; induction inputs as [|[[[a r] n] m] rest IH]; intros s k Hs Hk.
  - simpl in Hk; lia.
  - cbn [ExampleSender.assigned] in *.
    destruct (example_send_cases key a r n m s) as [(nonce & ct & tag & E)|E];
      rewrite E in *.
    + destruct k as [|k]; cbn [nth].
      * unfold u32. rewrite Z.add_0_r, Z.mod_small; lia.
      * cbn [length] in Hk.
        rewrite IH; cbn [ExampleSender.sequence_];
          [|apply Z.mod_pos_bound; lia|lia].
        rewrite u32_succ_shift. f_equal. lia.
    + apply IH; assumption.
Qed.

(** C5. Consecutive calls of send() on one sender work with the sequence
    numbers s, s+1, s+2, ... modulo 2^32: the k-th call gets the counter's
    start plus k, two calls less than 2^32 apart never get the same
    number, and as long as the counter has not wrapped the numbers grow
    strictly.  The sender without ledger numbers the packets of its
    successful calls the same way. *)
Theorem C5_send_sequence_numbers (key : list Z) enc inputs
    (s : Sender.SecureUdpSender) ex_inputs (es : ExampleSender.SecureUdpSender)
    (i j : nat) :
  0 <= Sender.seq_ s < 2 ^ 32 ->
  0 <= ExampleSender.sequence_ es < 2 ^ 32 ->
  (i < j)%nat ->
  Z.of_nat j - Z.of_nat i < 2 ^ 32 ->
  let a := Sender.assigned key enc inputs s in
  let b := ExampleSender.assigned key ex_inputs es in
  length a = length inputs
  /\ ((j < length a)%nat ->
      nth i a 0 = u32 (Sender.seq_ s + Z.of_nat i)
      /\ nth j a 0 = u32 (Sender.seq_ s + Z.of_nat j)
      /\ nth i a 0 <> nth j a 0
      /\ (Sender.seq_ s + Z.of_nat j < 2 ^ 32 -> nth i a 0 < nth j a 0))
  /\ ((j < length b)%nat ->
      nth i b 0 = u32 (ExampleSender.sequence_ es + Z.of_nat i)
      /\ nth j b 0 = u32 (ExampleSender.sequence_ es + Z.of_nat j)
      /\ nth i b 0 <> nth j b 0
      /\ (ExampleSender.sequence_ es + Z.of_nat j < 2 ^ 32 ->
          nth i b 0 < nth j b 0)).
Proof.
  intros Hs Hes Hij Hwrap a b.
  split; [apply length_assigned|]. split; intros Hj.
  - subst a. rewrite length_assigned in Hj.
    rewrite !nth_assigned by (assumption || lia).
    repeat split; [apply u32_apart; lia|].
    intros Hno. unfold u32. rewrite !Z.mod_small by lia. lia.
  - subst b.
    rewrite !nth_example_assigned by (assumption || lia).
    repeat split; [apply u32_apart; lia|].
    intros Hno. unfold u32. rewrite !Z.mod_small by lia. lia.
Qed.

Lemma C5_send_sequence_numbers_witness :
  let inputs := [(zero_draws, 1000, ping); (zero_draws, 1001, ping);
                 (zero_draws, 1002, ping)] in
  let ex_inputs := [(true, [], 5, ping); (false, [], 6, ping);
                    (true, [], 7, ping)] in
  let a := Sender.assigned key32 sodium_encrypt inputs Sender.init in
  let b := ExampleSender.assigned key32 ex_inputs ExampleSender.init in
  a = [0; 1; 2] /\ b = [0; 1] /\ nth 0 a 0 <> nth 2 a 0 /\ nth 0 b 0 <> nth 1 b 0.
Proof.
  intros inputs ex_inputs a b.
  split; [reflexivity|]. split; [vm_compute; reflexivity|].
  split.
  - apply (C5_send_sequence_numbers key32 sodium_encrypt inputs Sender.init
             ex_inputs ExampleSender.init 0 2);
      [simpl; lia | simpl; lia | lia | lia | simpl; lia].
  - apply (C5_send_sequence_numbers key32 sodium_encrypt inputs Sender.init
             ex_inputs ExampleSender.init 0 1);
      [simpl; lia | simpl; lia | lia | lia | vm_compute; lia].
Defined.

(** ** The ledger *)

Lemma send_failure (key : list Z) enc draws (now : Z) (data : list Z)
    (s : Sender.SecureUdpSender) :
  enc key (Sender.generateNonce draws) data = None ->
  Sender.send key enc draws now data s
  = (false, [EvStderr],
     {| Sender.seq_ := u32 (Sender.seq_ s + 1);
        Sender.unackedPackets_ := Sender.unackedPackets_ s;
        Sender.running_ := Sender.running_ s |}).
Proof. intros H. unfold Sender.send. rewrite H. reflexivity. Qed.

Lemma send_success (key : list Z) enc draws (now : Z) (data ct tag : list Z)
    (s : Sender.SecureUdpSender) :
  enc key (Sender.generateNonce draws) data = Some (ct, tag) ->
  Sender.send key enc draws now data s
  = (true, [EvLock; EvUnlock; EvNotifyOne],
     {| Sender.seq_ := u32 (Sender.seq_ s + 1);
        Sender.unackedPackets_ :=
          <[Sender.seq_ s :=
              frame (Sender.seq_ s) (u64 now) (Sender.generateNonce draws) ct tag]>
            (Sender.unackedPackets_ s);
        Sender.running_ := Sender.running_ s |}).
Proof. intros H. unfold Sender.send. rewrite H. reflexivity. Qed.

(** The background thread reads the map and the flag, never the counter. *)
Lemma sendThreadFunc_ext (pc : Sender.LoopPc) (s s' : Sender.SecureUdpSender) :
  Sender.unackedPackets_ s' = Sender.unackedPackets_ s ->
  Sender.running_ s' = Sender.running_ s ->
  Sender.sendThreadFunc pc s' = Sender.sendThreadFunc pc s.
Proof.
  intros Hm Hr.
  unfold Sender.sendThreadFunc, Sender.loop_body, Sender.resend_all.
  rewrite Hm, Hr. reflexivity.
Qed.

(** C6. When encryption fails, send() returns false and leaves the
    ledger as it was: nothing is inserted, nothing is sent or signalled,
    and the retransmit loop does afterwards exactly what it would have
    done without the call. *)
Theorem C6_failed_send_not_stored (key : list Z) enc draws (now : Z)
    (data : list Z) (s : Sender.SecureUdpSender) :
  enc key (Sender.generateNonce draws) data = None ->
  let '(ret, ev, s') := Sender.send key enc draws now data s in
  ret = false
  /\ ev = [EvStderr]
  /\ Sender.unackedPackets_ s' = Sender.unackedPackets_ s
  /\ Sender.running_ s' = Sender.running_ s
  /\ forall pc, Sender.sendThreadFunc pc s' = Sender.sendThreadFunc pc s.
Proof.
  intros H. rewrite send_failure by assumption.
  split; [reflexivity|]. split; [reflexivity|].
  split; [reflexivity|]. split; [reflexivity|].
  intros pc. apply sendThreadFunc_ext; reflexivity.
Qed.

Lemma C6_failed_send_not_stored_witness :
  sodium_encrypt key32 (Sender.generateNonce zero_draws) ping = None
  /\ let '(ret, ev, s') :=
       Sender.send key32 sodium_encrypt zero_draws 1000 ping one_outstanding in
     ret = false
     /\ ev = [EvStderr]
     /\ Sender.unackedPackets_ s' = Sender.unackedPackets_ one_outstanding
     /\ Sender.running_ s' = Sender.running_ one_outstanding
     /\ forall pc, Sender.sendThreadFunc pc s'
                   = Sender.sendThreadFunc pc one_outstanding.
Proof.
  split; [reflexivity|].
  apply (C6_failed_send_not_stored key32 sodium_encrypt zero_draws 1000 ping
           one_outstanding).
  reflexivity.
Defined.

(** C9. Every call of send() moves the counter on by one, also the call
    whose encryption fails and which frames, stores and signals nothing.
    So when a call fails, the calls before and after it work with numbers
    two apart: the number in between is used up. *)
Theorem C9_failed_send_consumes_number (key : list Z) enc
    d1 (n1 : Z) (m1 : list Z) d2 (n2 : Z) (m2 : list Z)
    d3 (n3 : Z) (m3 : list Z) (s : Sender.SecureUdpSender) :
  0 <= Sender.seq_ s < 2 ^ 32 ->
  enc key (Sender.generateNonce d2) m2 = None ->
  let s1 := snd (Sender.send key enc d1 n1 m1 s) in
  let s2 := snd (Sender.send key enc d2 n2 m2 s1) in
  let s3 := snd (Sender.send key enc d3 n3 m3 s2) in
  Sender.seq_ s1 = u32 (Sender.seq_ s + 1)
  /\ Sender.seq_ s2 = u32 (Sender.seq_ s1 + 1)
  /\ Sender.seq_ s3 = u32 (Sender.seq_ s2 + 1)
  /\ Sender.send key enc d2 n2 m2 s1
     = (false, [EvStderr],
        {| Sender.seq_ := u32 (Sender.seq_ s1 + 1);
           Sender.unackedPackets_ := Sender.unackedPackets_ s1;
           Sender.running_ := Sender.running_ s1 |})
  /\ Sender.currentSeq s2 = u32 (Sender.currentSeq s + 2)
  /\ Sender.currentSeq s2 <> u32 (Sender.currentSeq s + 1)
  /\ (forall c t, enc key (Sender.generateNonce d1) m1 = Some (c, t) ->
      Sender.unackedPackets_ s1 !! Sender.currentSeq s
      = Some (frame (Sender.currentSeq s) (u64 n1) (Sender.generateNonce d1) c t))
  /\ (forall c t, enc key (Sender.generateNonce d3) m3 = Some (c, t) ->
      Sender.unackedPackets_ s3 !! Sender.currentSeq s2
      = Some (frame (Sender.currentSeq s2) (u64 n3) (Sender.generateNonce d3) c t)).
Proof.
  intros Hs Hfail s1 s2 s3.
  assert (E1 : Sender.seq_ s1 = u32 (Sender.seq_ s + 1)) by apply send_seq.
  assert (E2 : Sender.seq_ s2 = u32 (Sender.seq_ s1 + 1)) by apply send_seq.
  assert (E3 : Sender.seq_ s3 = u32 (Sender.seq_ s2 + 1)) by apply send_seq.
  assert (E4 : Sender.currentSeq s2 = u32 (Sender.currentSeq s + 2)).
  { unfold Sender.currentSeq. rewrite E2, E1.
    rewrite u32_succ_shift. reflexivity. }
  split; [exact E1|]. split; [exact E2|]. split; [exact E3|].
  split; [apply send_failure; assumption|].
  split; [exact E4|]. split; [|split].
  - rewrite E4. intros Heq. symmetry in Heq. revert Heq.
    apply u32_apart. lia.
  - intros c t Hok. subst s1. rewrite (send_success _ _ _ _ _ c t) by assumption.
    apply lookup_insert_eq.
  - intros c t Hok. subst s3. rewrite (send_success _ _ _ _ _ c t) by assumption.
    apply lookup_insert_eq.
Qed.

Lemma C9_failed_send_consumes_number_witness :
  let s1 := snd (Sender.send key32 sodium_encrypt zero_draws 1000 ping Sender.init) in
  let s2 := snd (Sender.send key32 sodium_encrypt zero_draws 1001 ping s1) in
  Sender.seq_ s1 = 1 /\ Sender.seq_ s2 = 2
  /\ Sender.unackedPackets_ s2 = Sender.unackedPackets_ Sender.init
  /\ Sender.currentSeq s2 <> u32 (Sender.currentSeq Sender.init + 1).
Proof.
  intros s1 s2.
  split; [reflexivity|]. split; [reflexivity|]. split; [reflexivity|].
  apply (C9_failed_send_consumes_number key32 sodium_encrypt
           zero_draws 1000 ping zero_draws 1001 ping zero_draws 1002 ping
           Sender.init);
    [simpl; lia | reflexivity].
Defined.

Lemma send_ledger_cases (key : list Z) enc draws (now : Z) (data : list Z)
    (s : Sender.SecureUdpSender) :
  let s' := snd (Sender.send key enc draws now data s) in
  Sender.running_ s' = Sender.running_ s
  /\ (Sender.unackedPackets_ s' = Sender.unackedPackets_ s
      \/ exists packet,
           Sender.unackedPackets_ s'
           = <[Sender.seq_ s := packet]> (Sender.unackedPackets_ s)).
Proof.
  unfold Sender.send. destruct (enc key _ data) as [[c t]|]; cbn [snd].
  - split; [reflexivity|]. right. eexists. reflexivity.
  - split; [reflexivity|]. left. reflexivity.
Qed.

Lemma step_keeps_key (key : list Z) enc (op : Sender.Op)
    (st : Sender.SecureUdpSender * Sender.LoopPc) (k : Z) :
  is_Some (Sender.unackedPackets_ (fst st) !! k) ->
  is_Some (Sender.unackedPackets_ (fst (snd (Sender.step key enc op st))) !! k).
Proof.
  destruct st as [s pc]; cbn [fst]. intros Hk.
  destruct op as [d n m| |]; cbn [Sender.step].
  - destruct (send_ledger_cases key enc d n m s) as [_ [E|[packet E]]].
    + destruct (Sender.send key enc d n m s) as [[r ev] s'].
      cbn [snd fst] in *. rewrite E. assumption.
    + destruct (Sender.send key enc d n m s) as [[r ev] s'].
      cbn [snd fst] in *. rewrite E.
      destruct (decide (Sender.seq_ s = k)) as [->|Hne].
      * rewrite lookup_insert_eq. eauto.
      * rewrite lookup_insert_ne by assumption. assumption.
  - destruct (Sender.sendThreadFunc pc s) as [ev pc']. assumption.
  - unfold Sender.stop. destruct (Sender.running_ s); assumption.
Qed.

Lemma run_keeps_key (key : list Z) enc (ops : list Sender.Op)
    (st : Sender.SecureUdpSender * Sender.LoopPc) (k : Z) :
  is_Some (Sender.unackedPackets_ (fst st) !! k) ->
  is_Some (Sender.unackedPackets_ (fst (snd (Sender.run key enc ops st))) !! k).
Proof.
  revert st; induction ops as [|op ops IH]; intros st Hk; cbn [Sender.run].
  - assumption.
  - pose proof (step_keeps_key key enc op st k Hk) as Hstep.
    destruct (Sender.step key enc op st) as [ev st'].
    specialize (IH st' Hstep).
    destruct (Sender.run key enc ops st') as [evs st'']. assumption.
Qed.

Lemma step_keeps_packet (key : list Z) enc (op : Sender.Op)
    (st : Sender.SecureUdpSender * Sender.LoopPc) (k : Z) (p : list Z) :
  Sender.unackedPackets_ (fst st) !! k = Some p ->
  (forall d n m, op = Sender.OpSend d n m -> Sender.currentSeq (fst st) <> k) ->
  Sender.unackedPackets_ (fst (snd (Sender.step key enc op st))) !! k = Some p.
Proof.
  destruct st as [s pc]; cbn [fst]. intros Hk Hop.
  destruct op as [d n m| |]; cbn [Sender.step].
  - specialize (Hop d n m eq_refl). unfold Sender.currentSeq in Hop.
    destruct (send_ledger_cases key enc d n m s) as [_ [E|[packet E]]];
      destruct (Sender.send key enc d n m s) as [[r ev] s'];
      cbn [snd fst] in *; rewrite E.
    + assumption.
    + rewrite lookup_insert_ne by assumption. assumption.
  - destruct (Sender.sendThreadFunc pc s) as [ev pc']. assumption.
  - unfold Sender.stop. destruct (Sender.running_ s); assumption.
Qed.

Lemma resend_all_presents (s : Sender.SecureUdpSender) (k : Z) (p : list Z) :
  Sender.unackedPackets_ s !! k = Some p ->
  In (EvSendTo p) (Sender.resend_all s).
Proof.
  intros Hk. unfold Sender.resend_all.
  apply (in_map (fun q : Z * list Z => EvSendTo (snd q)) _ (k, p)).
  apply list_elem_of_In, elem_of_map_to_list. assumption.
Qed.

Lemma loop_presents (pc : Sender.LoopPc) (s : Sender.SecureUdpSender)
    (k : Z) (p : list Z) :
  Sender.unackedPackets_ s !! k = Some p ->
  Sender.running_ s = true -> pc <> Sender.Exited ->
  In (EvSendTo p) (fst (Sender.sendThreadFunc pc s)).
Proof.
  intros Hk Hrun Hpc.
  pose proof (resend_all_presents s k p Hk) as Hin.
  unfold Sender.sendThreadFunc, Sender.loop_body. rewrite Hrun.
  destruct pc; [| |congruence]; cbn [fst].
  - rewrite bool_decide_eq_false_2; cbn [fst].
    + right. apply in_or_app. left. assumption.
    + intros Hempty. rewrite Hempty, lookup_empty in Hk. discriminate.
  - apply in_or_app. left. assumption.
Qed.

Lemma loop_silent_when_stopped (pc : Sender.LoopPc) (s : Sender.SecureUdpSender)
    (p : list Z) :
  Sender.running_ s = false ->
  ~ In (EvSendTo p) (fst (Sender.sendThreadFunc pc s)).
Proof.
  intros Hrun. unfold Sender.sendThreadFunc, Sender.loop_body. rewrite Hrun.
  destruct pc; cbn [fst In]; intuition discriminate.
Qed.

(** C7. No operation of the sender removes an entry of the ledger: an
    entry that is in the map stays in it through every call of send(),
    every turn of the retransmit loop and through stop(); its bytes change
    only if a later send() works with the same sequence number.  While
    the sender runs, every turn of the loop that reaches the resend pass
    sends the entry; once the sender is stopped the loop sends nothing.
    stop() does not empty the map: the entries go when the object does. *)
Theorem C7_ledger_entries_stay (key : list Z) enc
    (st : Sender.SecureUdpSender * Sender.LoopPc) (k : Z) (p : list Z) :
  Sender.unackedPackets_ (fst st) !! k = Some p ->
  (forall op,
      is_Some (Sender.unackedPackets_ (fst (snd (Sender.step key enc op st))) !! k))
  /\ (forall ops,
      is_Some (Sender.unackedPackets_ (fst (snd (Sender.run key enc ops st))) !! k))
  /\ (forall op,
      (forall d n m, op = Sender.OpSend d n m -> Sender.currentSeq (fst st) <> k) ->
      Sender.unackedPackets_ (fst (snd (Sender.step key enc op st))) !! k = Some p)
  /\ (Sender.running_ (fst st) = true -> snd st <> Sender.Exited ->
      In (EvSendTo p) (fst (Sender.step key enc Sender.OpLoop st)))
  /\ (Sender.running_ (fst st) = false ->
      forall q, ~ In (EvSendTo q) (fst (Sender.step key enc Sender.OpLoop st)))
  /\ Sender.unackedPackets_ (fst (snd (Sender.step key enc Sender.OpStop st)))
     = Sender.unackedPackets_ (fst st).
Proof.
  intros Hk.
  split; [intros op; apply step_keeps_key; eauto|].
  split; [intros ops; apply run_keeps_key; eauto|].
  split; [intros op Hop; apply step_keeps_packet; assumption|].
  destruct st as [s pc]; cbn [fst snd] in *.
  split; [|split].
  - intros Hrun Hpc. cbn [Sender.step].
    pose proof (loop_presents pc s k p Hk Hrun Hpc) as Hin.
    destruct (Sender.sendThreadFunc pc s) as [ev pc']. exact Hin.
  - intros Hrun q. cbn [Sender.step].
    pose proof (loop_silent_when_stopped pc s q Hrun) as Hin.
    destruct (Sender.sendThreadFunc pc s) as [ev pc']. exact Hin.
  - cbn [Sender.step]. unfold Sender.stop.
    destruct (Sender.running_ s); reflexivity.
Qed.

Lemma C7_ledger_entries_stay_witness :
  Sender.unackedPackets_ (fst (one_outstanding, Sender.AtWhile)) !! 0
  = Some ping_packet
  /\ In (EvSendTo ping_packet)
       (fst (Sender.step key32 sodium_encrypt Sender.OpLoop
               (one_outstanding, Sender.AtWhile)))
  /\ is_Some (Sender.unackedPackets_
                (fst (snd (Sender.run key32 sodium_encrypt
                             [Sender.OpSend zero_draws 1001 ping; Sender.OpLoop;
                              Sender.OpStop; Sender.OpLoop]
                             (one_outstanding, Sender.AtWhile)))) !! 0).
Proof.
  assert (H : Sender.unackedPackets_ (fst (one_outstanding, Sender.AtWhile)) !! 0
              = Some ping_packet) by reflexivity.
  split; [exact H|].
  pose proof (C7_ledger_entries_stay key32 sodium_encrypt
                (one_outstanding, Sender.AtWhile) 0 ping_packet H)
    as (_ & Hrun & _ & Hloop & _).
  split.
  - apply Hloop; [reflexivity | discriminate].
  - apply Hrun.
Defined.

(** The state with one outstanding packet is what a successful first
    send() leaves. *)
Example one_outstanding_from_send :
  snd (Sender.send key32 sodium_encrypt12 zero_draws 1000 ping Sender.init)
  = one_outstanding.
Proof. vm_compute. reflexivity. Qed.

(** ** The mutex and the socket *)

Lemma io_held_app (held : bool) (t1 t2 : list Event) :
  (forall e, In e t1 -> exists p, e = EvSendTo p) ->
  io_held held (t1 ++ t2) = repeat held (length t1) ++ io_held held t2.
Proof.
  induction t1 as [|e t1 IH]; intros Hall; cbn [app length repeat].
  - reflexivity.
  - destruct (Hall e (or_introl eq_refl)) as [p ->]. cbn [io_held].
    rewrite IH by (intros e' He'; apply Hall; right; assumption).
    reflexivity.
Qed.

Lemma resend_all_sends (s : Sender.SecureUdpSender) (e : Event) :
  In e (Sender.resend_all s) -> exists p, e = EvSendTo p.
Proof.
  unfold Sender.resend_all. intros Hin.
  apply in_map_iff in Hin. destruct Hin as [q [<- _]]. eauto.
Qed.

Lemma length_resend_all (s : Sender.SecureUdpSender) :
  length (Sender.resend_all s) = size (Sender.unackedPackets_ s).
Proof.
  unfold Sender.resend_all. rewrite length_map. apply length_map_to_list.
Qed.

(** C8, as the code has it.  The retransmit loop does all its network
    I/O with the mutex held.  A turn of the running loop that has entries
    to send holds the mutex, taken at the top of the turn or held again
    on return from the wait, from before the first sendto until after the
    last; it calls sendto once for every entry of the map and for nothing
    else, straight from the map, and unlocks and sleeps 100 ms only after
    that.  A turn that finds the map empty locks and goes into the wait
    without a sendto.  The insert of send() is made under the same mutex. *)
Theorem C8_resend_under_lock (key : list Z) enc draws (now : Z) (data : list Z)
    (s : Sender.SecureUdpSender) (pc : Sender.LoopPc) :
  Sender.running_ s = true ->
  pc <> Sender.Exited ->
  let trace := fst (Sender.sendThreadFunc pc s) in
  io_held (pc_holds pc) trace = repeat true (size (Sender.unackedPackets_ s))
  /\ (forall p,
        In (EvSendTo p) trace
        <-> exists k, Sender.unackedPackets_ s !! k = Some p)
  /\ (Sender.unackedPackets_ s = ∅ -> pc = Sender.AtWhile ->
      trace = [EvLock; EvWait])
  /\ (Sender.unackedPackets_ s <> ∅ \/ pc = Sender.InWait ->
      exists pass,
        trace = (if pc_holds pc then [] else [EvLock])
                  ++ pass ++ [EvUnlock; EvSleep 100]
        /\ (forall e, In e pass -> exists p, e = EvSendTo p)
        /\ length pass = size (Sender.unackedPackets_ s))
  /\ (Sender.unackedPackets_ (snd (Sender.send key enc draws now data s))
      = Sender.unackedPackets_ s
      \/ snd (fst (Sender.send key enc draws now data s))
         = [EvLock; EvUnlock; EvNotifyOne]).
Proof.
  intros Hrun Hpc trace.
  assert (Hbody : io_held true (Sender.resend_all s ++ [EvUnlock; EvSleep 100])
                  = repeat true (size (Sender.unackedPackets_ s))).
  { rewrite io_held_app by apply resend_all_sends.
    rewrite length_resend_all. cbn [io_held]. apply app_nil_r. }
  assert (Hin : forall p,
             In (EvSendTo p) (Sender.resend_all s)
             <-> exists k, Sender.unackedPackets_ s !! k = Some p).
  { intros p. split.
    - unfold Sender.resend_all. intros H. apply in_map_iff in H.
      destruct H as [[k q] [Hq Hm]]. cbn [snd] in Hq. injection Hq as ->.
      exists k. apply elem_of_map_to_list, list_elem_of_In. exact Hm.
    - intros [k Hk]. apply (resend_all_presents s k p Hk). }
  assert (Hcases :
            (Sender.unackedPackets_ s = ∅ /\ pc = Sender.AtWhile
             /\ trace = [EvLock; EvWait])
            \/ ((Sender.unackedPackets_ s <> ∅ \/ pc = Sender.InWait)
                /\ trace = (if pc_holds pc then [] else [EvLock])
                             ++ Sender.resend_all s ++ [EvUnlock; EvSleep 100])).
  { subst trace. unfold Sender.sendThreadFunc, Sender.loop_body. rewrite Hrun.
    destruct pc; [| |congruence]; cbn [pc_holds].
    - destruct (decide (Sender.unackedPackets_ s = ∅)) as [He|He].
      + left. rewrite bool_decide_eq_true_2 by assumption. repeat split; assumption.
      + right. rewrite bool_decide_eq_false_2 by assumption.
        split; [left; assumption|reflexivity].
    - right. split; [right; reflexivity|reflexivity]. }
  split; [|split; [|split; [|split]]].
  - destruct Hcases as [(He & _ & ->)|(_ & ->)].
    + rewrite He, map_size_empty. reflexivity.
    + destruct (pc_holds pc); cbn [app io_held]; exact Hbody.
  - intros p. destruct Hcases as [(He & _ & ->)|(_ & ->)].
    + split.
      * intros [H|[H|[]]]; discriminate.
      * intros [k Hk]. rewrite He, lookup_empty in Hk. discriminate.
    + rewrite <- Hin. rewrite !in_app_iff. split.
      * intros [H|[H|H]].
        -- destruct (pc_holds pc); [destruct H|].
           destruct H as [H|[]]; discriminate.
        -- exact H.
        -- destruct H as [H|[H|[]]]; discriminate.
      * intros H. right. left. exact H.
  - intros He Hat. destruct Hcases as [(_ & _ & E)|([Hne|Hw] & _)].
    + exact E.
    + contradiction.
    + congruence.
  - intros Hsome. destruct Hcases as [(He & Hat & _)|(_ & E)].
    + destruct Hsome as [Hne|Hw]; [contradiction|congruence].
    + exists (Sender.resend_all s). split; [exact E|].
      split; [apply resend_all_sends|apply length_resend_all].
  - unfold Sender.send.
    destruct (enc key (Sender.generateNonce draws) data) as [[c t]|];
      cbn [fst snd Sender.unackedPackets_].
    + right. reflexivity.
    + left. reflexivity.
Qed.

Lemma C8_resend_under_lock_witness :
  io_held (pc_holds Sender.AtWhile)
    (fst (Sender.sendThreadFunc Sender.AtWhile one_outstanding))
  = repeat true (size (Sender.unackedPackets_ one_outstanding))
  /\ (forall p,
        In (EvSendTo p) (fst (Sender.sendThreadFunc Sender.AtWhile one_outstanding))
        <-> exists k, Sender.unackedPackets_ one_outstanding !! k = Some p).
Proof.
  assert (H1 : Sender.running_ one_outstanding = true) by reflexivity.
  assert (H2 : Sender.AtWhile <> Sender.Exited) by discriminate.
  destruct (C8_resend_under_lock key32 sodium_encrypt zero_draws 1001 ping
              one_outstanding Sender.AtWhile H1 H2) as (Hheld & Hsent & _).
  split; [exact Hheld | exact Hsent].
Defined.

(** C8 as the design document has it fails: in the turn of the loop over
    one outstanding packet the sendto is made with the mutex held. *)
Lemma C8_counterexample :
  fst (Sender.sendThreadFunc Sender.AtWhile one_outstanding)
  = [EvLock; EvSendTo ping_packet; EvUnlock; EvSleep 100]
  /\ io_held false (fst (Sender.sendThreadFunc Sender.AtWhile one_outstanding))
     = [true]
  /\ ~ Forall (fun held => held = false)
         (io_held false
            (fst (Sender.sendThreadFunc Sender.AtWhile one_outstanding))).
Proof.
  assert (H : fst (Sender.sendThreadFunc Sender.AtWhile one_outstanding)
              = [EvLock; EvSendTo ping_packet; EvUnlock; EvSleep 100])
    by (vm_compute; reflexivity).
  split; [exact H|]. rewrite H. cbn [io_held].
  split; [reflexivity|].
  intros Hall. inversion Hall as [|x l Hx Hl]. discriminate.
Qed.

(** ** The receive loop *)

Lemma recvfrom_header (h rest : list Z) :
  length h = 12%nat ->
  Receiver.recvfrom (h ++ rest) = h ++ firstn 1488 rest.
Proof.
  intros Hh. unfold Receiver.recvfrom.
  rewrite take_app, Hh, take_ge by lia. reflexivity.
Qed.

(** What the parsing takes from the bytes behind the twelve header bytes. *)
Lemma parse_header (h b : list Z) :
  length h = 12%nat ->
  parse (h ++ b)
  = if Z.of_nat (12 + length b) <? 4 + 8 + 12 + 16 then None
    else
      let cipherLen := Z.to_nat (Z.of_nat (12 + length b) - 24 - 16) in
      Some {| pkt_seq := read_le32 (h ++ b) 0;
              pkt_timestamp := read_le64 (h ++ b) 4;
              pkt_nonce := firstn 12 b;
              pkt_cipher := firstn cipherLen (skipn 12 b);
              pkt_tag := firstn 16 (skipn (12 + cipherLen) b) |}.
Proof.
  intros Hh. unfold parse. rewrite length_app, Hh.
  destruct (Z.of_nat (12 + length b) <? 4 + 8 + 12 + 16); [reflexivity|].
  cbv zeta.
  rewrite (drop_app_length' h b 12) by (symmetry; exact Hh).
  rewrite (drop_app_add' h b 12 12) by (symmetry; exact Hh).
  change (Z.of_nat (12 + 12)) with 24.
  rewrite <- (Nat.add_assoc 12 12).
  rewrite (drop_app_add' h b 12) by (symmetry; exact Hh).
  reflexivity.
Qed.

(** The turn of the loop on a datagram of twelve header bytes and the
    rest: only the log line of a failed decryption mentions the header. *)
Lemma receive_header (key : list Z) dec (r : Receiver.SecureUdpReceiver)
    (h rest : list Z) :
  length h = 12%nat ->
  Receiver.receive key dec r (h ++ rest)
  = let b := firstn 1488 rest in
    let cipherLen := Z.to_nat (Z.of_nat (12 + length b) - 24 - 16) in
    if Z.of_nat (12 + length b) <? 4 + 8 + 12 + 16 then []
    else
      match dec key (firstn 12 b) (firstn cipherLen (skipn 12 b))
              (firstn 16 (skipn (12 + cipherLen) b)) with
      | None => [EvDecryptFailed (read_le32 (h ++ b) 0)]
      | Some plaintext =>
          if Receiver.callback_ r then [EvCallback plaintext] else []
      end.
Proof.
  intros Hh. unfold Receiver.receive.
  rewrite recvfrom_header by assumption.
  rewrite length_app, Hh.
  destruct (Z.leb_spec (Z.of_nat (12 + length (firstn 1488 rest))) 0); [lia|].
  rewrite parse_header by assumption.
  destruct (Z.of_nat (12 + length (firstn 1488 rest)) <? 4 + 8 + 12 + 16);
    reflexivity.
Qed.

Lemma receive_header_irrelevant (key : list Z) dec
    (r : Receiver.SecureUdpReceiver) (h1 h2 rest : list Z) :
  length h1 = 12%nat -> length h2 = 12%nat ->
  Receiver.callbacks (Receiver.receive key dec r (h1 ++ rest))
  = Receiver.callbacks (Receiver.receive key dec r (h2 ++ rest)).
Proof.
  intros H1 H2. rewrite !receive_header by assumption. cbv zeta.
  destruct (_ <? _); [reflexivity|].
  destruct (dec key _ _ _) as [plaintext|]; reflexivity.
Qed.

Lemma receive_failure_header_irrelevant (key : list Z) dec
    (r : Receiver.SecureUdpReceiver) (h1 h2 rest : list Z) :
  length h1 = 12%nat -> length h2 = 12%nat ->
  (exists seq, Receiver.receive key dec r (h1 ++ rest) = [EvDecryptFailed seq]) ->
  exists seq, Receiver.receive key dec r (h2 ++ rest) = [EvDecryptFailed seq].
Proof.
  intros H1 H2. rewrite !receive_header by assumption. cbv zeta.
  destruct (_ <? _); [intros [seq E]; discriminate|].
  destruct (dec key _ _ _) as [plaintext|].
  - destruct (Receiver.callback_ r); intros [seq E]; discriminate.
  - intros _. eexists. reflexivity.
Qed.

Lemma length_push_le_header (seq ts : Z) :
  length (push_le 4 seq ++ push_le 8 ts) = 12%nat.
Proof. rewrite length_app, !length_push_le. reflexivity. Qed.

(** C10. The sequence and timestamp bytes of a datagram have no part in
    what the receiver delivers: two datagrams that differ only in their
    first twelve bytes lead to the same calls of the callback, with the
    same plaintext, and decryption fails for the one exactly when it
    fails for the other. *)
Theorem C10_header_ignored_on_delivery (key : list Z) dec
    (r : Receiver.SecureUdpReceiver) (h1 h2 rest : list Z) :
  length h1 = 12%nat -> length h2 = 12%nat ->
  Receiver.callbacks (Receiver.receive key dec r (h1 ++ rest))
  = Receiver.callbacks (Receiver.receive key dec r (h2 ++ rest))
  /\ ((exists seq,
         Receiver.receive key dec r (h1 ++ rest) = [EvDecryptFailed seq])
      <-> (exists seq,
             Receiver.receive key dec r (h2 ++ rest) = [EvDecryptFailed seq]))
  /\ forall plaintext,
       In (EvCallback plaintext) (Receiver.receive key dec r (h1 ++ rest))
       <-> In (EvCallback plaintext) (Receiver.receive key dec r (h2 ++ rest)).
Proof.
  intros H1 H2.
  pose proof (receive_header_irrelevant key dec r h1 h2 rest H1 H2) as Hcb.
  split; [exact Hcb|].
  split; [split; apply receive_failure_header_irrelevant; assumption|].
  assert (Hin : forall trace m,
             In (EvCallback m) trace <-> In m (Receiver.callbacks trace)).
  { intros trace m. unfold Receiver.callbacks. rewrite in_flat_map. split.
    - intros Hm. exists (EvCallback m). split; [assumption|left; reflexivity].
    - intros [e [He Hm]]. destruct e; cbn [In] in Hm; try contradiction.
      destruct Hm as [->|[]]. assumption. }
  intros m. rewrite !Hin, Hcb. reflexivity.
Qed.

Lemma C10_header_ignored_on_delivery_witness :
  Receiver.callbacks
    (Receiver.receive key32 (OpenSSLImpl.aes_gcm_decrypt true) listening
       (firstn 12 ping_packet ++ skipn 12 ping_packet))
  = Receiver.callbacks
      (Receiver.receive key32 (OpenSSLImpl.aes_gcm_decrypt true) listening
         ((push_le 4 7 ++ push_le 8 99) ++ skipn 12 ping_packet)).
Proof.
  assert (H1 : length (firstn 12 ping_packet) = 12%nat) by reflexivity.
  assert (H2 : length (push_le 4 7 ++ push_le 8 99) = 12%nat) by reflexivity.
  destruct (C10_header_ignored_on_delivery key32
              (OpenSSLImpl.aes_gcm_decrypt true) listening
              (firstn 12 ping_packet) (push_le 4 7 ++ push_le 8 99)
              (skipn 12 ping_packet) H1 H2) as [Hsame _].
  exact Hsame.
Defined.

Lemma callbacks_app (t1 t2 : list Event) :
  Receiver.callbacks (t1 ++ t2) = Receiver.callbacks t1 ++ Receiver.callbacks t2.
Proof. unfold Receiver.callbacks. apply flat_map_app. Qed.

Lemma receiveThreadFunc_app (key : list Z) dec (r : Receiver.SecureUdpReceiver)
    (before after : list (list Z)) :
  Receiver.receiveThreadFunc key dec r (before ++ after)
  = Receiver.receiveThreadFunc key dec r before
      ++ Receiver.receiveThreadFunc key dec r after.
Proof.
  unfold Receiver.receiveThreadFunc.
  destruct (Receiver.running_ r); [apply flat_map_app | reflexivity].
Qed.

(** C2, as the code has it.  The receiver keeps nothing from one datagram
    to the next: what it does with a datagram does not depend on the
    datagrams before it, and a valid packet delivered twice reaches the
    callback twice, once per delivery and with the same plaintext. *)
Theorem C2_every_delivery_reaches_callback (key : list Z) dec
    (r : Receiver.SecureUdpReceiver) (before : list (list Z))
    (packet plaintext : list Z) :
  Receiver.running_ r = true ->
  Receiver.callbacks (Receiver.receive key dec r packet) = [plaintext] ->
  Receiver.receiveThreadFunc key dec r (before ++ [packet])
  = Receiver.receiveThreadFunc key dec r before
      ++ Receiver.receive key dec r packet
  /\ Receiver.callbacks (Receiver.receiveThreadFunc key dec r [packet; packet])
     = [plaintext; plaintext].
Proof.
  intros Hrun Hvalid. split.
  - rewrite receiveThreadFunc_app. f_equal.
    unfold Receiver.receiveThreadFunc. rewrite Hrun. cbn [flat_map].
    apply app_nil_r.
  - unfold Receiver.receiveThreadFunc. rewrite Hrun. cbn [flat_map].
    rewrite app_nil_r, callbacks_app, Hvalid. reflexivity.
Qed.

Lemma C2_every_delivery_reaches_callback_witness :
  Receiver.callbacks (example_receive [ping_packet; ping_packet]) = [ping; ping].
Proof.
  apply (C2_every_delivery_reaches_callback key32
           (OpenSSLImpl.aes_gcm_decrypt true) listening [] ping_packet ping).
  - reflexivity.
  - vm_compute. reflexivity.
Defined.

(** C2 as the design document has it fails: the packet that the sender
    of secure_udp_example emits for "ping" is delivered to the callback
    at its first and again at its second arrival. *)
Lemma C2_counterexample :
  Receiver.callbacks (example_receive [ping_packet]) = [ping]
  /\ example_receive [ping_packet; ping_packet]
     = [EvCallback ping; EvCallback ping]
  /\ length (Receiver.callbacks (example_receive [ping_packet; ping_packet]))
     <> 1%nat.
Proof.
  split; [vm_compute; reflexivity|].
  split; [vm_compute; reflexivity|].
  vm_compute. discriminate.
Qed.

(** ** Associated data *)

Lemma cipher_update_any (enc : bool) (k n input aad : list Z) (inl : Z) :
  EVP.CipherUpdate
    {| EVP.cipher_set := true; EVP.encrypting := enc;
       EVP.ctx_key := Some k; EVP.ctx_iv := Some n; EVP.ctx_aad := aad;
       EVP.processed := []; EVP.tag_buf := None |}
    input inl
  = if inl <? 0
    then (0, [],
          {| EVP.cipher_set := true; EVP.encrypting := enc;
             EVP.ctx_key := Some k; EVP.ctx_iv := Some n; EVP.ctx_aad := aad;
             EVP.processed := []; EVP.tag_buf := None |})
    else
      let data := firstn (Z.to_nat inl) input in
      (1, GCM.ctr k n data,
       {| EVP.cipher_set := true; EVP.encrypting := enc;
          EVP.ctx_key := Some k; EVP.ctx_iv := Some n; EVP.ctx_aad := aad;
          EVP.processed := if enc then GCM.ctr k n data else data;
          EVP.tag_buf := None |}).
Proof.
  unfold EVP.CipherUpdate, EVP.with_processed; cbn -[GCM.ctr Z.to_nat Z.ltb].
  destruct (inl <? 0); reflexivity.
Qed.

Lemma openssl_tag_no_aad (alloc_ok : bool) (rnd key pt : list Z) :
  match OpenSSLImpl.aes_gcm_encrypt alloc_ok rnd key pt with
  | Some (nonce, ct, tag) => tag = GCM.tag (firstn 32 key) (firstn 12 nonce) [] ct
  | None => True
  end.
Proof.
  unfold OpenSSLImpl.aes_gcm_encrypt.
  destruct alloc_ok; cbn [EVP.CIPHER_CTX_new]; [|exact I].
  cbn [EVP.EncryptInit_ex EVP.CipherInit_ex orb
       EVP.cipher_set EVP.ctx_key EVP.ctx_iv Z.eqb].
  unfold EVP.EncryptUpdate. rewrite cipher_update_any.
  destruct (OpenSSLImpl.int_of_size (length pt) <? 0); cbn [Z.eqb]; [exact I|].
  cbv zeta.
  cbn [Z.eqb EVP.EncryptFinal_ex EVP.ctx_key EVP.ctx_iv EVP.encrypting
       EVP.with_tag EVP.CIPHER_CTX_ctrl_GET_TAG EVP.tag_buf EVP.processed
       EVP.ctx_aad].
  rewrite app_nil_r, take_ge by (rewrite length_tag; lia).
  reflexivity.
Qed.

(** C1, as the code has it.  Encryption gets the key, the nonce and the
    plaintext and no associated data: the libsodium wrapper calls the
    library with an empty one, so a library that ignored the argument
    would serve it as well, and the tag the OpenSSL wrapper returns is
    the GCM tag of the ciphertext alone.  The sequence number and the
    timestamp are framed in front unauthenticated: the receiver delivers
    the same for a frame whatever these two fields are. *)
Theorem C1_header_not_authenticated
    (encrypt_call : list Z -> list Z -> list Z -> list Z -> option (list Z))
    (key nonce plaintext : list Z) (alloc_ok : bool) (rnd : list Z)
    (rkey : list Z) dec (r : Receiver.SecureUdpReceiver)
    (seq ts seq' ts' : Z) (n c t : list Z) :
  SodiumImpl.aes_gcm_encrypt encrypt_call key nonce plaintext
  = SodiumImpl.aes_gcm_encrypt (fun m _ npub k => encrypt_call m [] npub k)
      key nonce plaintext
  /\ match OpenSSLImpl.aes_gcm_encrypt alloc_ok rnd key plaintext with
     | Some (nonce', ct, tag) =>
         tag = GCM.tag (firstn 32 key) (firstn 12 nonce') [] ct
     | None => True
     end
  /\ Receiver.callbacks (Receiver.receive rkey dec r (frame seq ts n c t))
     = Receiver.callbacks (Receiver.receive rkey dec r (frame seq' ts' n c t))
  /\ ((exists s, Receiver.receive rkey dec r (frame seq ts n c t)
                 = [EvDecryptFailed s])
      <-> (exists s, Receiver.receive rkey dec r (frame seq' ts' n c t)
                     = [EvDecryptFailed s])).
Proof.
  split; [reflexivity|]. split; [apply openssl_tag_no_aad|].
  rewrite !frame_header.
  split; [apply receive_header_irrelevant; apply length_push_le_header|].
  split; apply receive_failure_header_irrelevant; apply length_push_le_header.
Qed.

(** C1 as the design document has it fails: the packet for "ping" with
    its sequence number changed from 0 to 7 and its timestamp from 1000
    to 99 still decrypts, and "ping" is delivered. *)
Lemma C1_counterexample :
  parse ping_packet
  = Some {| pkt_seq := 0; pkt_timestamp := 1000;
            pkt_nonce := repeat 0 12%nat;
            pkt_cipher := [126; 213; 219; 185];
            pkt_tag := GCM.tag key32 (repeat 0 12%nat) [] [126; 213; 219; 185] |}
  /\ parse tampered_packet
     = Some {| pkt_seq := 7; pkt_timestamp := 99;
               pkt_nonce := repeat 0 12%nat;
               pkt_cipher := [126; 213; 219; 185];
               pkt_tag := GCM.tag key32 (repeat 0 12%nat) [] [126; 213; 219; 185] |}
  /\ example_receive [ping_packet] = [EvCallback ping]
  /\ example_receive [tampered_packet] = [EvCallback ping].
Proof.
  split; [vm_compute; reflexivity|].
  split; [vm_compute; reflexivity|].
  split; vm_compute; reflexivity.
Qed.

(** ** The nonce length *)

(** C3.  The libsodium wrapper compares the length of the nonce with the
    key length: with a nonce of twelve bytes, the length generateNonce
    produces and the frame carries, it returns false before the library
    is called, whatever the key and the plaintext. *)
Theorem C3_twelve_byte_nonce_rejected
    (encrypt_call : list Z -> list Z -> list Z -> list Z -> option (list Z))
    (key nonce plaintext : list Z) :
  length nonce = 12%nat ->
  SodiumImpl.aes_gcm_encrypt encrypt_call key nonce plaintext = None.
Proof.
  intros Hn. unfold SodiumImpl.aes_gcm_encrypt, SodiumImpl.aes_gcm_encrypt_at.
  rewrite Hn. destruct (negb _); reflexivity.
Qed.

Lemma C3_twelve_byte_nonce_rejected_witness :
  length key32 = 32%nat
  /\ length (Sender.generateNonce zero_draws) = 12%nat
  /\ sodium_encrypt key32 (Sender.generateNonce zero_draws) ping = None.
Proof.
  split; [reflexivity|]. split; [reflexivity|].
  apply (C3_twelve_byte_nonce_rejected
           (Sodium.crypto_aead_aes256gcm_encrypt true) key32
           (Sender.generateNonce zero_draws) ping).
  reflexivity.
Defined.

Lemma length_generateNonce draws : length (Sender.generateNonce draws) = 12%nat.
Proof. unfold Sender.generateNonce. rewrite length_map, length_seq. reflexivity. Qed.

(** With this wrapper linked, no call of send() stores a packet. *)
Lemma send_over_sodium_fails
    (encrypt_call : list Z -> list Z -> list Z -> list Z -> option (list Z))
    (key : list Z) draws (now : Z) (data : list Z) (s : Sender.SecureUdpSender) :
  Sender.send key (SodiumImpl.aes_gcm_encrypt encrypt_call) draws now data s
  = (false, [EvStderr],
     {| Sender.seq_ := u32 (Sender.seq_ s + 1);
        Sender.unackedPackets_ := Sender.unackedPackets_ s;
        Sender.running_ := Sender.running_ s |}).
Proof.
  apply send_failure.
  unfold SodiumImpl.aes_gcm_encrypt, SodiumImpl.aes_gcm_encrypt_at.
  rewrite length_generateNonce. destruct (negb _); reflexivity.
Qed.

(** With the nonce length the cipher takes, the same wrapper succeeds for
    every 32-byte key and 12-byte nonce when the library does, and
    returns a 16-byte tag. *)
Lemma sodium_encrypt12_ok (key nonce plaintext : list Z) :
  length key = 32%nat -> length nonce = 12%nat ->
  exists ct tag,
    sodium_encrypt12 key nonce plaintext = Some (ct, tag)
    /\ length ct = length plaintext /\ length tag = 16%nat.
Proof.
  intros Hk Hn.
  unfold sodium_encrypt12, SodiumImpl.aes_gcm_encrypt_at,
    Sodium.crypto_aead_aes256gcm_encrypt, GCM.encrypt.
  rewrite Hk, Hn. cbn [Nat.eqb negb Sodium.crypto_aead_aes256gcm_KEYBYTES
                       Sodium.crypto_aead_aes256gcm_NPUBBYTES].
  eexists _, _. split; [reflexivity|].
  rewrite length_app, length_ctr, length_tag.
  unfold Sodium.crypto_aead_aes256gcm_ABYTES.
  replace (length plaintext + 16 - 16)%nat with (length plaintext) by lia.
  rewrite take_app_length', drop_app_length' by (rewrite length_ctr; reflexivity).
  split; [apply length_ctr | apply length_tag].
Qed.

(** ** Round trips *)

(** C4.  Parsing a frame gives back the sequence number, the timestamp,
    the nonce, the ciphertext and the tag it was assembled from (a frame
    of at most 1500 bytes comes out of the receive buffer whole); and for
    a 32-byte key, a 12-byte nonce and a plaintext, encrypt returns a
    ciphertext and a tag from which decrypt, with the same key and nonce,
    returns the plaintext.  (The plaintext length is passed to the
    library as an int.) *)
Theorem C4_round_trip (seq ts : Z) (nonce ct tag : list Z)
    (rnd key plaintext : list Z) :
  0 <= seq < 2 ^ 32 -> 0 <= ts < 2 ^ 64 ->
  length nonce = 12%nat -> length tag = 16%nat ->
  length key = 32%nat -> length rnd = 12%nat ->
  Z.of_nat (length plaintext) < 2 ^ 31 ->
  parse (frame seq ts nonce ct tag)
  = Some {| pkt_seq := seq; pkt_timestamp := ts; pkt_nonce := nonce;
            pkt_cipher := ct; pkt_tag := tag |}
  /\ ((length ct <= 1460)%nat ->
      Receiver.recvfrom (frame seq ts nonce ct tag) = frame seq ts nonce ct tag)
  /\ exists ct' tag',
       OpenSSLImpl.aes_gcm_encrypt true rnd key plaintext = Some (rnd, ct', tag')
       /\ length ct' = length plaintext
       /\ length tag' = 16%nat
       /\ OpenSSLImpl.aes_gcm_decrypt true key rnd ct' tag' = Some plaintext.
Proof.
  intros Hseq Hts Hn Ht Hk Hr Hp.
  split; [apply parse_frame; assumption|].
  split.
  { intros Hfit. unfold Receiver.recvfrom. apply take_ge.
    rewrite length_frame, Hn, Ht. lia. }
  assert (Hnonce : firstn 12 (rnd ++ repeat 0 12%nat) = rnd)
    by (apply take_app_length'; symmetry; exact Hr).
  pose proof (openssl_encrypt_ok rnd key plaintext Hp) as Henc.
  cbv zeta in Henc. rewrite Hnonce in Henc.
  eexists _, _. split; [exact Henc|].
  split; [apply length_ctr|]. split; [apply length_tag|].
  rewrite openssl_decrypt_ok by (rewrite length_ctr; assumption).
  rewrite (take_ge (GCM.tag _ _ _ _)) by (rewrite length_tag; lia).
  rewrite bytes_eqb_refl, ctr_involutive. reflexivity.
Qed.

Lemma C4_round_trip_witness :
  parse (frame 0 1000 (repeat 0 12%nat) [126; 213; 219; 185]
           (GCM.tag key32 (repeat 0 12%nat) [] [126; 213; 219; 185]))
  = Some {| pkt_seq := 0; pkt_timestamp := 1000;
            pkt_nonce := repeat 0 12%nat;
            pkt_cipher := [126; 213; 219; 185];
            pkt_tag := GCM.tag key32 (repeat 0 12%nat) []
                         [126; 213; 219; 185] |}
  /\ ((length [126; 213; 219; 185] <= 1460)%nat ->
      Receiver.recvfrom
        (frame 0 1000 (repeat 0 12%nat) [126; 213; 219; 185]
           (GCM.tag key32 (repeat 0 12%nat) [] [126; 213; 219; 185]))
      = frame 0 1000 (repeat 0 12%nat) [126; 213; 219; 185]
          (GCM.tag key32 (repeat 0 12%nat) [] [126; 213; 219; 185]))
  /\ exists ct' tag',
       OpenSSLImpl.aes_gcm_encrypt true (repeat 0 12%nat) key32 ping
       = Some (repeat 0 12%nat, ct', tag')
       /\ length ct' = length ping
       /\ length tag' = 16%nat
       /\ OpenSSLImpl.aes_gcm_decrypt true key32 (repeat 0 12%nat) ct' tag'
          = Some ping.
Proof.
  apply (C4_round_trip 0 1000 (repeat 0 12%nat) [126; 213; 219; 185]
           (GCM.tag key32 (repeat 0 12%nat) [] [126; 213; 219; 185])
           (repeat 0 12%nat) key32 ping).
  - lia.
  - lia.
  - reflexivity.
  - vm_compute. reflexivity.
  - reflexivity.
  - reflexivity.
  - simpl. lia.
Defined.

(** From send() of secure_udp_example to the callback: a message of at
    most 1460 bytes arrives as it was sent. *)
Lemma example_end_to_end (key rnd : list Z) (now : Z) (message : list Z)
    (s : ExampleSender.SecureUdpSender) (r : Receiver.SecureUdpReceiver) :
  0 <= ExampleSender.sequence_ s < 2 ^ 32 ->
  (length message <= 1460)%nat ->
  Receiver.callback_ r = true ->
  exists packet,
    ExampleSender.send key true rnd now message s
    = ([EvSendTo packet],
       {| ExampleSender.sequence_ := u32 (ExampleSender.sequence_ s + 1) |})
    /\ Receiver.receive key (OpenSSLImpl.aes_gcm_decrypt true) r packet
       = [EvCallback message].
Proof.
  intros Hs Hlen Hcb.
  assert (Hp : Z.of_nat (length message) < 2 ^ 31) by lia.
  pose proof (openssl_encrypt_ok rnd key message Hp) as Henc. cbv zeta in Henc.
  set (nonce := firstn 12 (rnd ++ repeat 0 12%nat)) in *.
  set (ct := GCM.ctr (firstn 32 key) (firstn 12 nonce) message) in *.
  set (tag := GCM.tag (firstn 32 key) (firstn 12 nonce) [] ct) in *.
  assert (Hn : length nonce = 12%nat)
    by (subst nonce; rewrite length_take, length_app, repeat_length; lia).
  assert (Hc : length ct = length message) by apply length_ctr.
  assert (Ht : length tag = 16%nat) by apply length_tag.
  exists (frame (ExampleSender.sequence_ s) (u64 now) nonce ct tag).
  split.
  - unfold ExampleSender.send. rewrite Henc. reflexivity.
  - unfold Receiver.receive, Receiver.recvfrom.
    rewrite take_ge by (rewrite length_frame; lia).
    rewrite length_frame.
    destruct (Z.leb_spec (Z.of_nat (4 + 8 + length nonce + length ct + length tag)) 0);
      [lia|].
    rewrite parse_frame;
      [|assumption|apply Z.mod_pos_bound; lia|assumption|assumption].
    cbn [pkt_nonce pkt_cipher pkt_tag].
    rewrite openssl_decrypt_ok by lia.
    subst tag. rewrite (take_ge (GCM.tag _ _ _ _)) by (rewrite length_tag; lia).
    rewrite bytes_eqb_refl. subst ct. rewrite ctr_involutive, Hcb. reflexivity.
Qed.

(** The receiver over the libsodium wrapper: the nonce it parses has
    twelve bytes, the wrapper wants thirty-two, nothing is delivered. *)
Lemma receive_over_sodium_drops
    (decrypt_call : list Z -> list Z -> list Z -> list Z -> option (list Z))
    (key : list Z) (r : Receiver.SecureUdpReceiver) (datagram : list Z) :
  Receiver.callbacks
    (Receiver.receive key (SodiumImpl.aes_gcm_decrypt decrypt_call) r datagram)
  = [].
Proof.
  unfold Receiver.receive.
  destruct (_ <=? 0); [reflexivity|].
  unfold parse. destruct (_ <? _); [reflexivity|]. cbv zeta.
  cbn [pkt_nonce pkt_cipher pkt_tag pkt_seq].
  unfold SodiumImpl.aes_gcm_decrypt, SodiumImpl.aes_gcm_decrypt_at.
  destruct (negb (length key =? _)%nat); [reflexivity|].
  rewrite length_take.
  destruct (Nat.eqb_spec (12 `min` length (skipn 12 (Receiver.recvfrom datagram)))
              Sodium.crypto_aead_aes256gcm_KEYBYTES) as [E|E].
  - unfold Sodium.crypto_aead_aes256gcm_KEYBYTES in E. lia.
  - reflexivity.
Qed.

(** ** The models of the cipher against published vectors *)

(** FIPS 197, appendix C.3. *)
Example aes256_fips197_c3 :
  AES.encrypt_block (List.map Z.of_nat (seq 0 32))
    [0x00; 0x11; 0x22; 0x33; 0x44; 0x55; 0x66; 0x77;
     0x88; 0x99; 0xaa; 0xbb; 0xcc; 0xdd; 0xee; 0xff]
  = [0x8e; 0xa2; 0xb7; 0xca; 0x51; 0x67; 0x45; 0xbf;
     0xea; 0xfc; 0x49; 0x90; 0x4b; 0x49; 0x60; 0x89].
Proof. vm_compute. reflexivity. Qed.

(** GCM specification, test case 14: zero key, zero nonce, one zero block. *)
Example gcm_test_case_14 :
  GCM.encrypt (repeat 0 32%nat) (repeat 0 12%nat) [] (repeat 0 16%nat)
  = ([0xce; 0xa7; 0x40; 0x3d; 0x4d; 0x60; 0x6b; 0x6e;
      0x07; 0x4e; 0xc5; 0xd3; 0xba; 0xf3; 0x9d; 0x18],
     [0xd0; 0xd1; 0xc8; 0xa7; 0x99; 0x99; 0x6b; 0xf0;
      0x26; 0x5b; 0x98; 0xb5; 0xd4; 0x8a; 0xb9; 0x19]).
Proof. vm_compute. reflexivity. Qed.

(** GCM specification, test case 16: associated data and a partial block. *)
Example gcm_test_case_16 :
  GCM.encrypt
      [0xfe; 0xff; 0xe9; 0x92; 0x86; 0x65; 0x73; 0x1c;
       0x6d; 0x6a; 0x8f; 0x94; 0x67; 0x30; 0x83; 0x08;
       0xfe; 0xff; 0xe9; 0x92; 0x86; 0x65; 0x73; 0x1c;
       0x6d; 0x6a; 0x8f; 0x94; 0x67; 0x30; 0x83; 0x08]
      [0xca; 0xfe; 0xba; 0xbe; 0xfa; 0xce; 0xdb; 0xad;
       0xde; 0xca; 0xf8; 0x88]
      [0xfe; 0xed; 0xfa; 0xce; 0xde; 0xad; 0xbe; 0xef;
       0xfe; 0xed; 0xfa; 0xce; 0xde; 0xad; 0xbe; 0xef;
       0xab; 0xad; 0xda; 0xd2]
      [0xd9; 0x31; 0x32; 0x25; 0xf8; 0x84; 0x06; 0xe5;
       0xa5; 0x59; 0x09; 0xc5; 0xaf; 0xf5; 0x26; 0x9a;
       0x86; 0xa7; 0xa9; 0x53; 0x15; 0x34; 0xf7; 0xda;
       0x2e; 0x4c; 0x30; 0x3d; 0x8a; 0x31; 0x8a; 0x72;
       0x1c; 0x3c; 0x0c; 0x95; 0x95; 0x68; 0x09; 0x53;
       0x2f; 0xcf; 0x0e; 0x24; 0x49; 0xa6; 0xb5; 0x25;
       0xb1; 0x6a; 0xed; 0xf5; 0xaa; 0x0d; 0xe6; 0x57;
       0xba; 0x63; 0x7b; 0x39]
    = ([0x52; 0x2d; 0xc1; 0xf0; 0x99; 0x56; 0x7d; 0x07;
       0xf4; 0x7f; 0x37; 0xa3; 0x2a; 0x84; 0x42; 0x7d;
       0x64; 0x3a; 0x8c; 0xdc; 0xbf; 0xe5; 0xc0; 0xc9;
       0x75; 0x98; 0xa2; 0xbd; 0x25; 0x55; 0xd1; 0xaa;
       0x8c; 0xb0; 0x8e; 0x48; 0x59; 0x0d; 0xbb; 0x3d;
       0xa7; 0xb0; 0x8b; 0x10; 0x56; 0x82; 0x88; 0x38;
       0xc5; 0xf6; 0x1e; 0x63; 0x93; 0xba; 0x7a; 0x0a;
       0xbc; 0xc9; 0xf6; 0x62],
       [0x76; 0xfc; 0x6e; 0xce; 0x0f; 0x4e; 0x17; 0x68;
       0xcd; 0xdf; 0x88; 0x53; 0xbb; 0x2d; 0x55; 0x1b]).
Proof. vm_compute. reflexivity. Qed.

(** * Further properties of the sources *)

(** ** The parsing of the receiver *)

Lemma lor_bound (n a b : Z) :
  0 <= n -> 0 <= a < 2 ^ n -> 0 <= b < 2 ^ n -> 0 <= Z.lor a b < 2 ^ n.
Proof.
  intros Hn Ha Hb.
  assert (Hnn : 0 <= Z.lor a b) by (apply Z.lor_nonneg; lia).
  split; [exact Hnn|].
  assert (E : Z.lor a b = Z.lor a b mod 2 ^ n).
  { apply Z.bits_inj'; intros m Hm.
    destruct (Z.lt_ge_cases m n) as [Hlt|Hge].
    - rewrite Z.mod_pow2_bits_low by lia. reflexivity.
    - rewrite Z.mod_pow2_bits_high by lia.
      rewrite Z.lor_spec, (testbit_above a n m), (testbit_above b n m) by lia.
      reflexivity. }
  rewrite E. apply Z.mod_pos_bound. lia.
Qed.

Lemma read_le32_range (buffer : list Z) (offset : nat) :
  0 <= read_le32 buffer offset < 2 ^ 32.
Proof.
  unfold read_le32. cbn [seq fold_left].
  repeat apply lor_bound; try lia; unfold u32; apply Z.mod_pos_bound; lia.
Qed.

Lemma read_le64_range (buffer : list Z) (offset : nat) :
  0 <= read_le64 buffer offset < 2 ^ 64.
Proof.
  unfold read_le64. cbn [seq fold_left].
  repeat apply lor_bound; try lia; unfold u64; apply Z.mod_pos_bound; lia.
Qed.

Lemma parse_some (buffer : list Z) :
  (40 <= length buffer)%nat ->
  parse buffer
  = Some {| pkt_seq := read_le32 buffer 0;
            pkt_timestamp := read_le64 buffer 4;
            pkt_nonce := firstn 12 (skipn 12 buffer);
            pkt_cipher := firstn (length buffer - 40) (skipn (12 + 12) buffer);
            pkt_tag := firstn 16 (skipn (12 + 12 + (length buffer - 40)) buffer) |}.
Proof.
  intros Hlen. unfold parse.
  destruct (Z.ltb_spec (Z.of_nat (length buffer)) (4 + 8 + 12 + 16)); [lia|].
  cbv zeta.
  replace (Z.to_nat (Z.of_nat (length buffer) - Z.of_nat (12 + 12) - 16))
    with (length buffer - 40)%nat by lia.
  reflexivity.
Qed.

Lemma parse_tail (buffer : list Z) :
  (40 <= length buffer)%nat ->
  firstn 12 (skipn 12 buffer)
    ++ firstn (length buffer - 40) (skipn (12 + 12) buffer)
    ++ firstn 16 (skipn (12 + 12 + (length buffer - 40)) buffer)
  = skipn 12 buffer.
Proof.
  intros Hlen.
  rewrite <- (drop_drop buffer 12 12),
    <- (drop_drop buffer (length buffer - 40) (12 + 12)).
  rewrite <- (drop_drop buffer 12 12).
  set (r := skipn 12 buffer).
  rewrite (take_ge (skipn _ (skipn 12 r)))
    by (subst r; rewrite !length_drop; lia).
  rewrite take_drop, take_drop. reflexivity.
Qed.

(** Every buffer of at least forty bytes parses: into a 32-bit sequence
    number, a 64-bit timestamp, twelve bytes of nonce, sixteen of tag, and
    all the bytes in between as ciphertext.  A shorter one does not. *)
Theorem parse_fields (buffer : list Z) :
  (40 <= length buffer)%nat ->
  exists p,
    parse buffer = Some p
    /\ 0 <= pkt_seq p < 2 ^ 32
    /\ 0 <= pkt_timestamp p < 2 ^ 64
    /\ length (pkt_nonce p) = 12%nat
    /\ length (pkt_cipher p) = (length buffer - 40)%nat
    /\ length (pkt_tag p) = 16%nat
    /\ pkt_nonce p ++ pkt_cipher p ++ pkt_tag p = skipn 12 buffer.
Proof.
  intros Hlen. rewrite parse_some by assumption.
  eexists. split; [reflexivity|].
  cbn [pkt_seq pkt_timestamp pkt_nonce pkt_cipher pkt_tag].
  split; [apply read_le32_range|]. split; [apply read_le64_range|].
  split; [rewrite length_take, length_drop; lia|].
  split; [rewrite length_take, length_drop; lia|].
  split; [rewrite length_take, length_drop; lia|].
  apply parse_tail. assumption.
Qed.

Lemma parse_fields_witness :
  exists p, parse ping_packet = Some p /\ length (pkt_cipher p) = 4%nat.
Proof.
  assert (H : (40 <= length ping_packet)%nat) by (vm_compute; lia).
  destruct (parse_fields ping_packet H) as (p & Hp & _ & _ & _ & Hc & _).
  exists p. split; [exact Hp|]. exact Hc.
Defined.

(** A datagram of fewer than forty bytes is dropped in silence: no
    decryption is tried, nothing is logged, the callback is not called. *)
Theorem short_datagram_dropped (key : list Z) dec
    (r : Receiver.SecureUdpReceiver) (datagram : list Z) :
  (length datagram < 40)%nat ->
  parse datagram = None
  /\ Receiver.receive key dec r datagram = [].
Proof.
  intros Hlen.
  assert (Hp : forall b : list Z, (length b < 40)%nat -> parse b = None).
  { intros b Hb. unfold parse.
    destruct (Z.ltb_spec (Z.of_nat (length b)) (4 + 8 + 12 + 16)); [reflexivity|lia]. }
  split; [apply Hp; assumption|].
  unfold Receiver.receive, Receiver.recvfrom.
  rewrite take_ge by lia.
  destruct (_ <=? 0); [reflexivity|]. rewrite Hp by assumption. reflexivity.
Qed.

Lemma short_datagram_dropped_witness :
  Receiver.receive key32 (OpenSSLImpl.aes_gcm_decrypt true) listening
    (firstn 39 ping_packet) = [].
Proof.
  assert (H : (length (firstn 39 ping_packet) < 40)%nat) by (vm_compute; lia).
  destruct (short_datagram_dropped key32 (OpenSSLImpl.aes_gcm_decrypt true)
              listening (firstn 39 ping_packet) H) as [_ Hr].
  exact Hr.
Defined.

Lemma byte_shift_bits (b j w m : Z) :
  0 <= b < 256 -> 0 <= j -> 8 * j + 8 <= w -> 0 <= m ->
  Z.testbit (Z.shiftl b (j * 8) mod 2 ^ w) m
  = (8 * j <=? m) && (m <? 8 * j + 8) && Z.testbit b (m - 8 * j).
Proof.
  intros Hb Hj Hw Hm.
  destruct (Z.leb_spec (8 * j) m) as [Hlo|Hlo];
    destruct (Z.ltb_spec m (8 * j + 8)) as [Hhi|Hhi]; cbn [andb].
  - rewrite Z.mod_pow2_bits_low by lia.
    rewrite Z.shiftl_spec by lia. f_equal. lia.
  - destruct (Z.lt_ge_cases m w) as [Hmw|Hmw].
    + rewrite Z.mod_pow2_bits_low by lia.
      rewrite Z.shiftl_spec by lia.
      apply (testbit_above b 8); [exact Hb | lia].
    + apply Z.mod_pow2_bits_high. lia.
  - rewrite Z.mod_pow2_bits_low by lia.
    rewrite Z.shiftl_spec by lia.
    apply Z.testbit_neg_r. lia.
  - lia.
Qed.

Lemma low_byte_bits (x s n : Z) :
  0 <= n -> 0 <= s ->
  Z.testbit (Z.land (Z.shiftr x s) 255) n = (n <? 8) && Z.testbit x (n + s).
Proof.
  intros Hn Hs. change 255 with (Z.ones 8).
  rewrite Z.land_spec, Z.shiftr_spec by lia.
  destruct (Z.ltb_spec n 8).
  - rewrite Z.ones_spec_low by lia. apply andb_true_r.
  - rewrite Z.ones_spec_high by lia. apply andb_false_r.
Qed.

Ltac byte_bits n :=
  rewrite low_byte_bits by lia;
  destruct (Z.ltb_spec n 8);
  [ cbn [andb]; rewrite !Z.lor_spec, Z.bits_0;
    rewrite !byte_shift_bits by lia;
    split_ranges; cbn [andb orb]; rewrite ?orb_false_r; f_equal; lia
  | cbn [andb]; symmetry; apply (testbit_above _ 8); lia ].

Lemma push_le_read_le32 (b0 b1 b2 b3 : Z) (rest : list Z) :
  bytes_in_range [b0; b1; b2; b3] ->
  push_le 4 (read_le32 (b0 :: b1 :: b2 :: b3 :: rest) 0) = [b0; b1; b2; b3].
Proof.
  intros Hr.
  inversion Hr as [|? ? H0 Hr1]; subst. inversion Hr1 as [|? ? H1 Hr2]; subst.
  inversion Hr2 as [|? ? H2 Hr3]; subst. inversion Hr3 as [|? ? H3 _]; subst.
  unfold push_le, read_le32, u32; cbn [seq List.map fold_left nth Nat.add].
  change (Z.of_nat 0) with 0. change (Z.of_nat 1) with 1.
  change (Z.of_nat 2) with 2. change (Z.of_nat 3) with 3.
  repeat f_equal; apply Z.bits_inj'; intros n Hn; byte_bits n.
Qed.

Lemma push_le_read_le64 (a0 a1 a2 a3 b0 b1 b2 b3 b4 b5 b6 b7 : Z)
    (rest : list Z) :
  bytes_in_range [b0; b1; b2; b3; b4; b5; b6; b7] ->
  push_le 8 (read_le64 (a0 :: a1 :: a2 :: a3 :: b0 :: b1 :: b2 :: b3
                          :: b4 :: b5 :: b6 :: b7 :: rest) 4)
  = [b0; b1; b2; b3; b4; b5; b6; b7].
Proof.
  intros Hr.
  repeat match goal with
         | H : bytes_in_range (_ :: _) |- _ =>
             let Hb := fresh "Hb" in
             let Ht := fresh "Ht" in
             inversion H as [|? ? Hb Ht]; subst; clear H;
             fold (bytes_in_range) in Ht
         | H : Forall _ (_ :: _) |- _ =>
             let Hb := fresh "Hb" in
             let Ht := fresh "Ht" in
             inversion H as [|? ? Hb Ht]; subst; clear H
         end.
  unfold push_le, read_le64, u64; cbn [seq List.map fold_left nth Nat.add].
  change (Z.of_nat 0) with 0. change (Z.of_nat 1) with 1.
  change (Z.of_nat 2) with 2. change (Z.of_nat 3) with 3.
  change (Z.of_nat 4) with 4. change (Z.of_nat 5) with 5.
  change (Z.of_nat 6) with 6. change (Z.of_nat 7) with 7.
  repeat f_equal; apply Z.bits_inj'; intros n Hn; byte_bits n.
Qed.

Lemma bytes_in_range_check (l : list Z) :
  forallb (fun b => (0 <=? b) && (b <? 256)) l = true -> bytes_in_range l.
Proof.
  intros H. apply Forall_forall. intros b Hb.
  rewrite forallb_forall in H. apply list_elem_of_In in Hb.
  specialize (H b Hb). lia.
Qed.

(** Parsing loses nothing: a buffer of at least forty bytes is the frame
    of the five fields parsed from it. *)
Theorem frame_of_parse (buffer : list Z) (p : Packet) :
  bytes_in_range buffer ->
  parse buffer = Some p ->
  frame (pkt_seq p) (pkt_timestamp p) (pkt_nonce p) (pkt_cipher p) (pkt_tag p)
  = buffer.
Proof.
  intros Hr Hp.
  assert (Hlen : (40 <= length buffer)%nat).
  { unfold parse in Hp.
    destruct (Z.ltb_spec (Z.of_nat (length buffer)) (4 + 8 + 12 + 16));
      [discriminate|lia]. }
  rewrite parse_some in Hp by assumption. injection Hp as <-.
  cbn [pkt_seq pkt_timestamp pkt_nonce pkt_cipher pkt_tag].
  unfold frame. rewrite parse_tail by assumption.
  do 12 (destruct buffer as [|? buffer]; [cbn [length] in Hlen; lia|]).
  assert (H4 : bytes_in_range [z; z0; z1; z2]).
  { unfold bytes_in_range in *.
    repeat match goal with
           | H : Forall _ (_ :: _) |- _ => apply Forall_cons in H; destruct H
           end.
    repeat (apply Forall_cons; split; auto). }
  assert (H8 : bytes_in_range [z3; z4; z5; z6; z7; z8; z9; z10]).
  { unfold bytes_in_range in *.
    repeat match goal with
           | H : Forall _ (_ :: _) |- _ => apply Forall_cons in H; destruct H
           end.
    repeat (apply Forall_cons; split; auto). }
  rewrite push_le_read_le32 by exact H4.
  rewrite push_le_read_le64 by exact H8.
  reflexivity.
Qed.

Lemma frame_of_parse_witness :
  exists p,
    parse tampered_packet = Some p
    /\ frame (pkt_seq p) (pkt_timestamp p) (pkt_nonce p) (pkt_cipher p)
         (pkt_tag p) = tampered_packet.
Proof.
  assert (H : (40 <= length tampered_packet)%nat) by (vm_compute; lia).
  pose proof (parse_some tampered_packet H) as Hp.
  eexists. split; [exact Hp|].
  apply (frame_of_parse tampered_packet _); [|exact Hp].
  apply bytes_in_range_check. vm_compute. reflexivity.
Defined.

(** A frame longer than the 1500-byte receive buffer is cut by recvfrom,
    and the parsing does not notice: with 1476 or more bytes of
    ciphertext it takes the first 1460 for the ciphertext and the next
    sixteen ciphertext bytes for the tag. *)
Theorem long_frame_cut (seq ts : Z) (nonce ct tag : list Z) :
  0 <= seq < 2 ^ 32 -> 0 <= ts < 2 ^ 64 ->
  length nonce = 12%nat -> (1476 <= length ct)%nat ->
  parse (Receiver.recvfrom (frame seq ts nonce ct tag))
  = Some {| pkt_seq := seq; pkt_timestamp := ts; pkt_nonce := nonce;
            pkt_cipher := firstn 1460 ct;
            pkt_tag := firstn 16 (skipn 1460 ct) |}.
Proof.
  intros Hseq Hts Hn Hct.
  assert (Hcut : Receiver.recvfrom (frame seq ts nonce ct tag)
                 = frame seq ts nonce (firstn 1460 ct) (firstn 16 (skipn 1460 ct))).
  { unfold Receiver.recvfrom. rewrite !frame_header.
    rewrite take_app, length_push_le_header.
    rewrite (take_ge (push_le 4 seq ++ push_le 8 ts))
      by (rewrite length_push_le_header; lia).
    f_equal. rewrite take_app, Hn, (take_ge nonce) by lia. f_equal.
    change (1500 - 12 - 12)%nat with 1476%nat.
    rewrite take_app_le by lia.
    rewrite <- (take_drop 1460 (firstn 1476 ct)) at 1.
    rewrite take_take, skipn_firstn_comm. reflexivity. }
  rewrite Hcut. apply parse_frame; try assumption.
  rewrite length_take, length_drop. lia.
Qed.

Lemma long_frame_cut_witness :
  parse (Receiver.recvfrom
           (frame 1 2 (repeat 0 12%nat) (repeat 7 1476%nat) (repeat 9 16%nat)))
  = Some {| pkt_seq := 1; pkt_timestamp := 2; pkt_nonce := repeat 0 12%nat;
            pkt_cipher := firstn 1460 (repeat 7 1476%nat);
            pkt_tag := firstn 16 (skipn 1460 (repeat 7 1476%nat)) |}.
Proof.
  apply (long_frame_cut 1 2 (repeat 0 12%nat) (repeat 7 1476%nat)
           (repeat 9 16%nat)).
  - lia.
  - lia.
  - reflexivity.
  - rewrite repeat_length. lia.
Defined.

(** ** What reaches the callback *)

Lemma receive_cases (key : list Z) dec (r : Receiver.SecureUdpReceiver)
    (datagram : list Z) :
  Receiver.receive key dec r datagram = []
  \/ (exists p,
        parse (Receiver.recvfrom datagram) = Some p
        /\ dec key (pkt_nonce p) (pkt_cipher p) (pkt_tag p) = None
        /\ Receiver.receive key dec r datagram = [EvDecryptFailed (pkt_seq p)])
  \/ (exists p plaintext,
        parse (Receiver.recvfrom datagram) = Some p
        /\ dec key (pkt_nonce p) (pkt_cipher p) (pkt_tag p) = Some plaintext
        /\ Receiver.callback_ r = true
        /\ Receiver.receive key dec r datagram = [EvCallback plaintext]).
Proof.
  unfold Receiver.receive.
  destruct (_ <=? 0); [left; reflexivity|].
  destruct (parse (Receiver.recvfrom datagram)) as [p|]; [|left; reflexivity].
  destruct (dec key (pkt_nonce p) (pkt_cipher p) (pkt_tag p)) as [m|] eqn:E.
  - destruct (Receiver.callback_ r) eqn:Ec; [|left; reflexivity].
    right. right. exists p, m. repeat split; assumption.
  - right. left. exists p. repeat split; assumption.
Qed.

(** The callback gets nothing but plaintexts that aes_gcm_decrypt
    returned for the nonce, ciphertext and tag of a datagram the loop
    processed, and only if a callback is set; it is called at most once
    per datagram. *)
Theorem delivered_only_decrypted (key : list Z) dec
    (r : Receiver.SecureUdpReceiver) (datagrams : list (list Z))
    (plaintext : list Z) :
  In plaintext
    (Receiver.callbacks (flat_map (Receiver.receive key dec r) datagrams)) ->
  Receiver.callback_ r = true
  /\ (exists datagram p,
        In datagram datagrams
        /\ parse (Receiver.recvfrom datagram) = Some p
        /\ dec key (pkt_nonce p) (pkt_cipher p) (pkt_tag p) = Some plaintext)
  /\ (length (Receiver.callbacks (flat_map (Receiver.receive key dec r) datagrams))
      <= length datagrams)%nat.
Proof.
  intros Hin.
  assert (Hone : forall d,
             (length (Receiver.callbacks (Receiver.receive key dec r d)) <= 1)%nat).
  { intros d.
    destruct (receive_cases key dec r d)
      as [E|[(p & _ & _ & E)|(p & m & _ & _ & _ & E)]];
      rewrite E; cbn; lia. }
  assert (Hcount : (length (Receiver.callbacks
                              (flat_map (Receiver.receive key dec r) datagrams))
                    <= length datagrams)%nat).
  { clear Hin. induction datagrams as [|d ds IH]; cbn [flat_map length].
    - cbn. lia.
    - rewrite callbacks_app, length_app. specialize (Hone d). lia. }
  unfold Receiver.callbacks in Hin. rewrite in_flat_map in Hin.
  destruct Hin as (e & He & Hm).
  rewrite in_flat_map in He. destruct He as (d & Hd & He).
  destruct e; cbn [In] in Hm; try contradiction.
  destruct Hm as [->|[]].
  destruct (receive_cases key dec r d)
    as [E|[(p & _ & _ & E)|(p & m & Hp & Hdec & Hcb & E)]];
    rewrite E in He; cbn [In] in He.
  - contradiction.
  - destruct He as [He|[]]; discriminate.
  - destruct He as [He|[]]. injection He as ->.
    split; [exact Hcb|]. split; [|exact Hcount].
    exists d, p. repeat split; assumption.
Qed.

Lemma delivered_only_decrypted_witness :
  exists datagram p,
    In datagram [firstn 39 ping_packet; ping_packet]
    /\ parse (Receiver.recvfrom datagram) = Some p
    /\ OpenSSLImpl.aes_gcm_decrypt true key32 (pkt_nonce p) (pkt_cipher p)
         (pkt_tag p) = Some ping.
Proof.
  assert (H : In ping
                (Receiver.callbacks
                   (flat_map
                      (Receiver.receive key32 (OpenSSLImpl.aes_gcm_decrypt true)
                         listening)
                      [firstn 39 ping_packet; ping_packet])))
    by (vm_compute; left; reflexivity).
  destruct (delivered_only_decrypted key32 (OpenSSLImpl.aes_gcm_decrypt true)
              listening [firstn 39 ping_packet; ping_packet] ping H)
    as (_ & Hex & _).
  exact Hex.
Defined.

Lemma receive_turns_prefix (key : list Z) dec (r : Receiver.SecureUdpReceiver)
    (before : list (list Z)) (rest : list (bool * list Z)) :
  receive_turns key dec r (List.map (fun d => (true, d)) before ++ rest)
  = flat_map (Receiver.receive key dec r) before ++ receive_turns key dec r rest.
Proof.
  induction before as [|d ds IH]; cbn [List.map app receive_turns flat_map].
  - reflexivity.
  - rewrite IH, app_assoc. reflexivity.
Qed.

(** The receive loop tests the running flag before it blocks in
    recvfrom, not after: a datagram that comes in on a turn whose test
    still found the flag set is processed and delivered even if stop()
    has cleared the flag since; the loop ends at the first test that
    finds the flag cleared, and nothing that arrives later is processed.
    While every test finds the flag set, the loop is the batch loop. *)
Theorem loop_ends_at_cleared_flag (key : list Z) dec
    (r : Receiver.SecureUdpReceiver) (before : list (list Z))
    (last : list Z) (after : list (bool * list Z)) :
  Receiver.running_ r = true ->
  receive_turns key dec r
    (List.map (fun d => (true, d)) before ++ (false, last) :: after)
  = flat_map (Receiver.receive key dec r) before
  /\ receive_turns key dec r (List.map (fun d => (true, d)) before)
     = Receiver.receiveThreadFunc key dec r before
  /\ receive_turns key dec r
       (List.map (fun d => (true, d)) (before ++ [last]) ++ (false, last) :: after)
     = Receiver.receiveThreadFunc key dec r before
         ++ Receiver.receive key dec r last.
Proof.
  intros Hrun. unfold Receiver.receiveThreadFunc. rewrite Hrun.
  split; [|split].
  - rewrite receive_turns_prefix. cbn [receive_turns]. apply app_nil_r.
  - rewrite <- (app_nil_r (List.map _ before)), receive_turns_prefix.
    cbn [receive_turns]. apply app_nil_r.
  - rewrite receive_turns_prefix. cbn [receive_turns].
    rewrite app_nil_r, flat_map_app. cbn [flat_map]. rewrite app_nil_r.
    reflexivity.
Qed.

Lemma loop_ends_at_cleared_flag_witness :
  receive_turns key32 (OpenSSLImpl.aes_gcm_decrypt true) listening
    (List.map (fun d => (true, d)) ([] ++ [ping_packet])
       ++ (false, ping_packet) :: [(true, ping_packet)])
  = Receiver.receiveThreadFunc key32 (OpenSSLImpl.aes_gcm_decrypt true)
      listening []
      ++ Receiver.receive key32 (OpenSSLImpl.aes_gcm_decrypt true) listening
           ping_packet.
Proof.
  assert (H : Receiver.running_ listening = true) by reflexivity.
  destruct (loop_ends_at_cleared_flag key32 (OpenSSLImpl.aes_gcm_decrypt true)
              listening [] ping_packet [(true, ping_packet)] H) as (_ & _ & Hl).
  exact Hl.
Defined.

(** ** The wrappers around the cipher *)

(** The OpenSSL aes_gcm_decrypt releases no plaintext for a wrong tag:
    for what encrypt returned, every other sixteen-byte tag makes it
    return false, and so does a failed context allocation. *)
Theorem openssl_wrong_tag_rejected (rnd key plaintext : list Z)
    (alloc_ok : bool) (tag' : list Z) :
  Z.of_nat (length plaintext) < 2 ^ 31 ->
  length tag' = 16%nat ->
  match OpenSSLImpl.aes_gcm_encrypt true rnd key plaintext with
  | Some (nonce, ct, tag) =>
      (tag' <> tag -> OpenSSLImpl.aes_gcm_decrypt alloc_ok key nonce ct tag' = None)
      /\ OpenSSLImpl.aes_gcm_decrypt false key nonce ct tag = None
      /\ OpenSSLImpl.aes_gcm_decrypt true key nonce ct tag = Some plaintext
  | None => False
  end.
Proof.
  intros Hp Ht.
  rewrite openssl_encrypt_ok by assumption. cbv zeta.
  set (nonce := firstn 12 (rnd ++ repeat 0 12%nat)).
  set (ct := GCM.ctr (firstn 32 key) (firstn 12 nonce) plaintext).
  assert (Hc : Z.of_nat (length ct) < 2 ^ 31)
    by (subst ct; rewrite length_ctr; assumption).
  split; [|split].
  - intros Hne. destruct alloc_ok; [|reflexivity].
    rewrite openssl_decrypt_ok by assumption.
    rewrite take_ge by lia.
    unfold GCM.bytes_eqb. rewrite bool_decide_eq_false_2 by exact Hne.
    reflexivity.
  - reflexivity.
  - rewrite openssl_decrypt_ok by assumption.
    rewrite (take_ge (GCM.tag _ _ _ _)) by (rewrite length_tag; lia).
    rewrite bytes_eqb_refl. subst ct. rewrite ctr_involutive. reflexivity.
Qed.

Lemma openssl_wrong_tag_rejected_witness :
  OpenSSLImpl.aes_gcm_decrypt true key32 (repeat 0 12%nat)
    [126; 213; 219; 185] (repeat 0 16%nat) = None.
Proof.
  assert (H1 : Z.of_nat (length ping) < 2 ^ 31) by (simpl; lia).
  assert (H2 : length (repeat 0 16%nat) = 16%nat) by reflexivity.
  pose proof (openssl_wrong_tag_rejected (repeat 0 12%nat) key32 ping true
                (repeat 0 16%nat) H1 H2) as H.
  vm_compute in H. destruct H as [H _].
  vm_compute. apply H. discriminate.
Defined.

(** The libsodium wrapper wants thirty-two bytes of key and thirty-two of
    nonce: for any other length aes_gcm_encrypt and aes_gcm_decrypt
    return false, and the library is not asked. *)
Theorem sodium_length_checks
    (encrypt_call decrypt_call : list Z -> list Z -> list Z -> list Z -> option (list Z))
    (key nonce plaintext ciphertext tag : list Z) :
  length key <> 32%nat \/ length nonce <> 32%nat ->
  SodiumImpl.aes_gcm_encrypt encrypt_call key nonce plaintext = None
  /\ SodiumImpl.aes_gcm_decrypt decrypt_call key nonce ciphertext tag = None.
Proof.
  intros Hlen.
  unfold SodiumImpl.aes_gcm_encrypt, SodiumImpl.aes_gcm_encrypt_at,
    SodiumImpl.aes_gcm_decrypt, SodiumImpl.aes_gcm_decrypt_at,
    Sodium.crypto_aead_aes256gcm_KEYBYTES.
  destruct (Nat.eqb_spec (length key) 32) as [Hk|Hk]; cbn [negb];
    [|split; reflexivity].
  destruct (Nat.eqb_spec (length nonce) 32) as [Hn|Hn]; cbn [negb];
    [|split; reflexivity].
  destruct Hlen; contradiction.
Qed.

Lemma sodium_length_checks_witness :
  SodiumImpl.aes_gcm_decrypt (Sodium.crypto_aead_aes256gcm_decrypt true)
    (firstn 31 key32) (repeat 0 32%nat) [126; 213; 219; 185] (repeat 0 16%nat)
  = None.
Proof.
  assert (H : length (firstn 31 key32) <> 32%nat \/ length (repeat 0 32%nat) <> 32%nat)
    by (left; vm_compute; discriminate).
  destruct (sodium_length_checks (Sodium.crypto_aead_aes256gcm_encrypt true)
              (Sodium.crypto_aead_aes256gcm_decrypt true)
              (firstn 31 key32) (repeat 0 32%nat) ping [126; 213; 219; 185]
              (repeat 0 16%nat) H) as [_ Hd].
  exact Hd.
Defined.

(** With lengths it accepts, the libsodium wrapper splits what the
    library wrote into ciphertext and a sixteen-byte tag, and
    aes_gcm_decrypt hands the library the same bytes joined again. *)
Theorem sodium_split_join
    (encrypt_call decrypt_call : list Z -> list Z -> list Z -> list Z -> option (list Z))
    (key nonce plaintext c : list Z) :
  length key = 32%nat -> length nonce = 32%nat ->
  encrypt_call plaintext [] nonce key = Some c ->
  (16 <= length c)%nat ->
  exists ciphertext tag,
    SodiumImpl.aes_gcm_encrypt encrypt_call key nonce plaintext
    = Some (ciphertext, tag)
    /\ ciphertext ++ tag = c
    /\ length tag = 16%nat
    /\ SodiumImpl.aes_gcm_decrypt decrypt_call key nonce ciphertext tag
       = decrypt_call c [] nonce key.
Proof.
  intros Hk Hn Hc Hlen.
  unfold SodiumImpl.aes_gcm_encrypt, SodiumImpl.aes_gcm_encrypt_at,
    SodiumImpl.aes_gcm_decrypt, SodiumImpl.aes_gcm_decrypt_at,
    Sodium.crypto_aead_aes256gcm_KEYBYTES, Sodium.crypto_aead_aes256gcm_ABYTES.
  rewrite Hk, Hn, Hc. cbn [Nat.eqb negb].
  eexists _, _. split; [reflexivity|].
  split; [apply take_drop|]. split; [rewrite length_drop; lia|].
  rewrite take_drop. reflexivity.
Qed.

Lemma sodium_split_join_witness :
  exists ciphertext tag,
    SodiumImpl.aes_gcm_encrypt (Sodium.crypto_aead_aes256gcm_encrypt true)
      key32 (repeat 0 32%nat) ping = Some (ciphertext, tag)
    /\ length tag = 16%nat.
Proof.
  assert (H1 : length key32 = 32%nat) by reflexivity.
  assert (H2 : length (repeat 0 32%nat) = 32%nat) by reflexivity.
  assert (H3 : Sodium.crypto_aead_aes256gcm_encrypt true ping [] (repeat 0 32%nat) key32
               = Some ([126; 213; 219; 185]
                         ++ GCM.tag key32 (repeat 0 12%nat) [] [126; 213; 219; 185]))
    by (vm_compute; reflexivity).
  assert (H4 : le 16 (length ([126; 213; 219; 185]
                                ++ GCM.tag key32 (repeat 0 12%nat) []
                                     [126; 213; 219; 185])))
    by (vm_compute; lia).
  destruct (sodium_split_join (Sodium.crypto_aead_aes256gcm_encrypt true)
              (Sodium.crypto_aead_aes256gcm_decrypt true)
              key32 (repeat 0 32%nat) ping _ H1 H2 H3 H4)
    as (ct & tag & Henc & _ & Htag & _).
  exists ct, tag. split; [exact Henc | exact Htag].
Defined.

(** ** The sender object over a run of operations *)

Lemma run_app (key : list Z) enc (ops1 ops2 : list Sender.Op)
    (st : Sender.SecureUdpSender * Sender.LoopPc) :
  Sender.run key enc (ops1 ++ ops2) st
  = let '(ev1, st1) := Sender.run key enc ops1 st in
    let '(ev2, st2) := Sender.run key enc ops2 st1 in
    (ev1 ++ ev2, st2).
Proof.
  revert st; induction ops1 as [|op ops1 IH]; intros st; cbn [app Sender.run].
  - destruct (Sender.run key enc ops2 st) as [ev2 st2]. reflexivity.
  - destruct (Sender.step key enc op st) as [ev st']. rewrite IH.
    destruct (Sender.run key enc ops1 st') as [ev1 st1].
    destruct (Sender.run key enc ops2 st1) as [ev2 st2].
    rewrite app_assoc. reflexivity.
Qed.

Lemma step_ledger_framed (key : list Z) enc (op : Sender.Op)
    (st : Sender.SecureUdpSender * Sender.LoopPc) :
  ledger_framed (fst st) ->
  ledger_framed (fst (snd (Sender.step key enc op st))).
Proof.
  destruct st as [s pc]; cbn [fst]. intros [Hs Hm].
  destruct op as [d n m| |]; cbn [Sender.step].
  - unfold Sender.send.
    destruct (enc key (Sender.generateNonce d) m) as [[c t]|]; cbn [snd fst].
    + split; [cbn [Sender.seq_]; apply Z.mod_pos_bound; lia|].
      cbn [Sender.unackedPackets_]. intros k p Hk.
      destruct (decide (Sender.seq_ s = k)) as [<-|Hne].
      * rewrite lookup_insert_eq in Hk. injection Hk as <-.
        split; [exact Hs|]. split.
        -- unfold frame. apply read_le32_push_le. exact Hs.
        -- eexists _, _, _, _. split; [reflexivity|].
           split; [apply Z.mod_pos_bound; lia | apply length_generateNonce].
      * rewrite lookup_insert_ne in Hk by assumption. apply Hm. exact Hk.
    + split; [cbn [Sender.seq_]; apply Z.mod_pos_bound; lia|exact Hm].
  - destruct (Sender.sendThreadFunc pc s) as [ev pc']. split; assumption.
  - unfold Sender.stop. destruct (Sender.running_ s); split; assumption.
Qed.

(** Whatever is done with a sender, every entry of its ledger is a
    whole frame stored under the sequence number it carries: the key can
    be read back from the first four bytes of the packet. *)
Theorem ledger_keys_match_packets (key : list Z) enc (ops : list Sender.Op)
    (st : Sender.SecureUdpSender * Sender.LoopPc) (k : Z) (p : list Z) :
  ledger_framed (fst st) ->
  Sender.unackedPackets_ (fst (snd (Sender.run key enc ops st))) !! k = Some p ->
  0 <= k < 2 ^ 32
  /\ read_le32 p 0 = k
  /\ exists ts nonce ct tag,
       p = frame k ts nonce ct tag /\ 0 <= ts < 2 ^ 64 /\ length nonce = 12%nat.
Proof.
  intros Hinv.
  assert (Hrun : ledger_framed (fst (snd (Sender.run key enc ops st)))).
  { revert st Hinv; induction ops as [|op ops IH]; intros st Hinv;
      cbn [Sender.run].
    - exact Hinv.
    - pose proof (step_ledger_framed key enc op st Hinv) as Hstep.
      destruct (Sender.step key enc op st) as [ev st'].
      specialize (IH st' Hstep).
      destruct (Sender.run key enc ops st') as [evs st'']. exact IH. }
  intros Hk. destruct Hrun as [_ Hm]. apply Hm. exact Hk.
Qed.

Lemma ledger_framed_init : ledger_framed Sender.init.
Proof.
  split; [cbn; lia|]. intros k p Hk. cbn in Hk.
  rewrite lookup_empty in Hk. discriminate.
Qed.

Lemma ledger_keys_match_packets_witness :
  read_le32 ping_packet 0 = 0.
Proof.
  assert (H1 : ledger_framed (fst (Sender.init, Sender.AtWhile)))
    by exact ledger_framed_init.
  assert (H2 : Sender.unackedPackets_
                 (fst (snd (Sender.run key32 sodium_encrypt12
                              [Sender.OpSend zero_draws 1000 ping; Sender.OpLoop]
                              (Sender.init, Sender.AtWhile)))) !! 0
               = Some ping_packet) by (vm_compute; reflexivity).
  destruct (ledger_keys_match_packets key32 sodium_encrypt12
              [Sender.OpSend zero_draws 1000 ping; Sender.OpLoop]
              (Sender.init, Sender.AtWhile) 0 ping_packet H1 H2) as (_ & Hr & _).
  exact Hr.
Defined.

Lemma step_counts (key : list Z) enc (op : Sender.Op)
    (st : Sender.SecureUdpSender * Sender.LoopPc) :
  let st' := snd (Sender.step key enc op st) in
  Sender.seq_ (fst st')
  = (match op with
     | Sender.OpSend _ _ _ => u32 (Sender.seq_ (fst st) + 1)
     | _ => Sender.seq_ (fst st)
     end)
  /\ (size (Sender.unackedPackets_ (fst st'))
      <= size (Sender.unackedPackets_ (fst st))
         + match op with Sender.OpSend _ _ _ => 1 | _ => 0 end)%nat
  /\ (size (Sender.unackedPackets_ (fst st))
      <= size (Sender.unackedPackets_ (fst st')))%nat.
Proof.
  destruct st as [s pc]. destruct op as [d n m| |]; cbn [Sender.step fst].
  - unfold Sender.send.
    destruct (enc key (Sender.generateNonce d) m) as [[c t]|]; cbn [snd fst].
    + cbn [Sender.seq_ Sender.unackedPackets_]. split; [reflexivity|].
      rewrite map_size_insert.
      destruct (Sender.unackedPackets_ s !! Sender.seq_ s); cbn [id]; lia.
    + cbn [Sender.seq_ Sender.unackedPackets_]. split; [reflexivity|]. lia.
  - destruct (Sender.sendThreadFunc pc s) as [ev pc']. cbn [snd fst].
    split; [reflexivity|]. lia.
  - unfold Sender.stop. destruct (Sender.running_ s); cbn [snd fst];
      (split; [reflexivity|]); cbn [Sender.unackedPackets_]; lia.
Qed.

(** After any operations the counter stands at its start plus the number
    of send() calls, modulo 2^32, and the ledger has grown by at most one
    entry per send() call and never shrunk. *)
Theorem counter_and_ledger_size (key : list Z) enc (ops : list Sender.Op)
    (st : Sender.SecureUdpSender * Sender.LoopPc) :
  0 <= Sender.seq_ (fst st) < 2 ^ 32 ->
  let st' := snd (Sender.run key enc ops st) in
  Sender.seq_ (fst st') = u32 (Sender.seq_ (fst st) + Z.of_nat (sends ops))
  /\ (size (Sender.unackedPackets_ (fst st))
      <= size (Sender.unackedPackets_ (fst st'))
      <= size (Sender.unackedPackets_ (fst st)) + sends ops)%nat.
Proof.
  revert st; induction ops as [|op ops IH]; intros st Hs; cbn [Sender.run].
  - cbn [snd sends List.filter length]. unfold u32.
    rewrite Z.add_0_r, Z.mod_small by lia. lia.
  - pose proof (step_counts key enc op st) as (Hseq & Hup & Hdown).
    destruct (Sender.step key enc op st) as [ev st']. cbn [snd] in *.
    assert (Hs' : 0 <= Sender.seq_ (fst st') < 2 ^ 32).
    { rewrite Hseq. destruct op; try assumption.
      apply Z.mod_pos_bound. lia. }
    specialize (IH st' Hs').
    destruct (Sender.run key enc ops st') as [evs st'']. cbn [snd] in *.
    destruct IH as (IHseq & IHlo & IHhi).
    unfold sends in *. cbn [List.filter].
    destruct op as [d n m| |]; cbn [length] in *.
    + split; [|lia]. rewrite IHseq, Hseq, u32_succ_shift. f_equal. lia.
    + split; [|lia]. rewrite IHseq, Hseq. reflexivity.
    + split; [|lia]. rewrite IHseq, Hseq. reflexivity.
Qed.

Lemma counter_and_ledger_size_witness :
  Sender.seq_
    (fst (snd (Sender.run key32 sodium_encrypt
                 [Sender.OpSend zero_draws 1000 ping; Sender.OpLoop;
                  Sender.OpSend zero_draws 1001 ping]
                 (one_outstanding, Sender.AtWhile))))
  = u32 (1 + 2).
Proof.
  assert (H : 0 <= Sender.seq_ (fst (one_outstanding, Sender.AtWhile)) < 2 ^ 32)
    by (simpl; lia).
  destruct (counter_and_ledger_size key32 sodium_encrypt
              [Sender.OpSend zero_draws 1000 ping; Sender.OpLoop;
               Sender.OpSend zero_draws 1001 ping]
              (one_outstanding, Sender.AtWhile) H) as [Hseq _].
  exact Hseq.
Defined.

Lemma sent_packets_app (t1 t2 : list Event) :
  sent_packets (t1 ++ t2) = sent_packets t1 ++ sent_packets t2.
Proof. unfold sent_packets. apply flat_map_app. Qed.

(** ** The retransmit thread *)

Lemma lock_after_app (held : bool) (t1 t2 : list Event) :
  lock_after held (t1 ++ t2) = lock_after (lock_after held t1) t2.
Proof.
  revert held; induction t1 as [|e t1 IH]; intros held; cbn [app lock_after].
  - reflexivity.
  - destruct e; apply IH.
Qed.

Lemma sleep_held_app (held : bool) (t1 t2 : list Event) :
  sleep_held held (t1 ++ t2)
  = sleep_held held t1 ++ sleep_held (lock_after held t1) t2.
Proof.
  revert held; induction t1 as [|e t1 IH]; intros held;
    cbn [app lock_after sleep_held].
  - reflexivity.
  - destruct e; cbn [app]; rewrite ?IH; reflexivity.
Qed.

Lemma io_held_app_any (held : bool) (t1 t2 : list Event) :
  io_held held (t1 ++ t2) = io_held held t1 ++ io_held (lock_after held t1) t2.
Proof.
  revert held; induction t1 as [|e t1 IH]; intros held;
    cbn [app lock_after io_held].
  - reflexivity.
  - destruct e; cbn [app]; rewrite ?IH; reflexivity.
Qed.

Lemma resend_all_keeps_lock (held : bool) (s : Sender.SecureUdpSender) :
  lock_after held (Sender.resend_all s) = held
  /\ sleep_held held (Sender.resend_all s) = []
  /\ io_held held (Sender.resend_all s)
     = repeat held (size (Sender.unackedPackets_ s)).
Proof.
  rewrite <- length_resend_all.
  pose proof (resend_all_sends s) as Hall.
  induction (Sender.resend_all s) as [|e l IH]; cbn [lock_after sleep_held io_held].
  - repeat split.
  - destruct (Hall e (or_introl eq_refl)) as [p ->].
    cbn [lock_after sleep_held io_held length repeat].
    destruct IH as (H1 & H2 & H3); [intros e' He'; apply Hall; right; exact He'|].
    rewrite H1, H2, H3. repeat split.
Qed.

Lemma thread_step_discipline (pc : Sender.LoopPc) (s : Sender.SecureUdpSender) :
  let '(ev, pc') := Sender.sendThreadFunc pc s in
  lock_after (pc_holds pc) ev = pc_holds pc'
  /\ Forall (fun held => held = false) (sleep_held (pc_holds pc) ev)
  /\ Forall (fun held => held = true) (io_held (pc_holds pc) ev)
  /\ (pc = Sender.Exited -> ev = [] /\ pc' = Sender.Exited)
  /\ (Sender.running_ s = false -> pc' = Sender.Exited).
Proof.
  pose proof (resend_all_keeps_lock true s) as (Hl & Hsl & Hio).
  assert (Hbody : lock_after true (Sender.resend_all s ++ [EvUnlock; EvSleep 100])
                  = false
                  /\ Forall (fun held => held = false)
                       (sleep_held true
                          (Sender.resend_all s ++ [EvUnlock; EvSleep 100]))
                  /\ Forall (fun held => held = true)
                       (io_held true
                          (Sender.resend_all s ++ [EvUnlock; EvSleep 100]))).
  { rewrite lock_after_app, sleep_held_app, io_held_app_any, Hl, Hsl, Hio.
    cbn [lock_after sleep_held io_held app]. rewrite app_nil_r.
    split; [reflexivity|]. split; [repeat constructor|].
    apply Forall_forall. intros x Hx. apply list_elem_of_In in Hx.
    apply repeat_spec in Hx. exact Hx. }
  destruct Hbody as (Hb1 & Hb2 & Hb3).
  unfold Sender.sendThreadFunc, Sender.loop_body.
  destruct pc; destruct (Sender.running_ s) eqn:Hrun; cbn [pc_holds].
  - destruct (bool_decide _).
    + cbn [lock_after sleep_held io_held pc_holds].
      repeat split; try constructor; discriminate.
    + cbn [lock_after sleep_held io_held pc_holds].
      repeat split; try assumption; discriminate.
  - cbn [lock_after sleep_held io_held pc_holds].
    repeat split; try constructor; discriminate.
  - repeat split; try assumption; discriminate.
  - cbn [lock_after sleep_held io_held pc_holds].
    repeat split; try constructor; discriminate.
  - cbn [lock_after sleep_held io_held pc_holds].
    repeat split; constructor.
  - cbn [lock_after sleep_held io_held pc_holds].
    repeat split; constructor.
Qed.

Lemma thread_run_discipline (pc : Sender.LoopPc)
    (views : list Sender.SecureUdpSender) :
  let '(ev, pc') := thread_run pc views in
  lock_after (pc_holds pc) ev = pc_holds pc'
  /\ Forall (fun held => held = false) (sleep_held (pc_holds pc) ev)
  /\ Forall (fun held => held = true) (io_held (pc_holds pc) ev)
  /\ (pc = Sender.Exited -> ev = [] /\ pc' = Sender.Exited)
  /\ (Exists (fun s => Sender.running_ s = false) views ->
      pc' = Sender.Exited).
Proof.
  revert pc; induction views as [|s rest IH]; intros pc; cbn [thread_run].
  - cbn [lock_after sleep_held io_held].
    repeat split; try constructor; try assumption.
    intros Hex. inversion Hex.
  - pose proof (thread_step_discipline pc s) as Hstep.
    destruct (Sender.sendThreadFunc pc s) as [ev pc1].
    destruct Hstep as (H1 & H2 & H3 & H4 & H5).
    specialize (IH pc1). destruct (thread_run pc1 rest) as [evs pc2].
    destruct IH as (I1 & I2 & I3 & I4 & I5).
    rewrite lock_after_app, sleep_held_app, io_held_app_any, H1.
    split; [exact I1|]. split; [apply Forall_app; split; assumption|].
    split; [apply Forall_app; split; assumption|]. split.
    + intros Hpc. destruct (H4 Hpc) as [-> ->].
      destruct (I4 eq_refl) as [-> ->]. split; reflexivity.
    + intros Hex. apply Exists_cons in Hex. destruct Hex as [Hoff|Hex].
      * specialize (H5 Hoff). subst pc1.
        destruct (I4 eq_refl) as [_ ->]. reflexivity.
      * apply I5. exact Hex.
Qed.

(** Whatever the other threads do to the sender object between its
    turns, the retransmit thread never sleeps with the mutex held and
    makes every sendto with the mutex held (taken at the top of the turn,
    or re-acquired when cv_.wait returns); it has left the loop after any
    turn that found the running flag cleared, and once it has left it
    does nothing more. *)
Theorem thread_lock_discipline (pc : Sender.LoopPc)
    (views : list Sender.SecureUdpSender) :
  let '(ev, pc') := thread_run pc views in
  Forall (fun held => held = false) (sleep_held (pc_holds pc) ev)
  /\ Forall (fun held => held = true) (io_held (pc_holds pc) ev)
  /\ (pc = Sender.Exited -> ev = [] /\ pc' = Sender.Exited)
  /\ (Exists (fun s => Sender.running_ s = false) views ->
      pc' = Sender.Exited).
Proof.
  pose proof (thread_run_discipline pc views) as H.
  destruct (thread_run pc views) as [ev pc'].
  destruct H as (_ & H2 & H3 & H4 & H5).
  repeat split; try assumption; apply H4; assumption.
Qed.

Lemma sent_packets_resend_all (s : Sender.SecureUdpSender) :
  sent_packets (Sender.resend_all s)
  = List.map snd (map_to_list (Sender.unackedPackets_ s)).
Proof.
  unfold Sender.resend_all, sent_packets.
  induction (map_to_list (Sender.unackedPackets_ s)) as [|q l IH].
  - reflexivity.
  - cbn [List.map flat_map app]. rewrite IH. reflexivity.
Qed.

(** A turn of the retransmit loop of a running sender writes to the
    socket the stored bytes of every entry of the ledger, one sendto per
    entry, in some order, and nothing else. *)
Theorem loop_turn_sends_ledger (pc : Sender.LoopPc) (s : Sender.SecureUdpSender) :
  Sender.running_ s = true -> pc <> Sender.Exited ->
  let sent := sent_packets (fst (Sender.sendThreadFunc pc s)) in
  Permutation sent (List.map snd (map_to_list (Sender.unackedPackets_ s)))
  /\ length sent = size (Sender.unackedPackets_ s)
  /\ forall p, In p sent <-> exists k, Sender.unackedPackets_ s !! k = Some p.
Proof.
  intros Hrun Hpc sent.
  assert (Hsent : sent = List.map snd (map_to_list (Sender.unackedPackets_ s))).
  { subst sent. unfold Sender.sendThreadFunc, Sender.loop_body. rewrite Hrun.
    destruct pc; [| |congruence]; cbn [fst].
    - destruct (bool_decide (Sender.unackedPackets_ s = ∅)) eqn:E; cbn [fst].
      + apply bool_decide_eq_true_1 in E. rewrite E, map_to_list_empty.
        reflexivity.
      + change (EvLock :: Sender.resend_all s ++ [EvUnlock; EvSleep 100])
          with ([EvLock] ++ Sender.resend_all s ++ [EvUnlock; EvSleep 100]).
        rewrite !sent_packets_app, sent_packets_resend_all.
        cbn [sent_packets flat_map app]. apply app_nil_r.
    - rewrite sent_packets_app, sent_packets_resend_all.
      cbn [sent_packets flat_map app]. apply app_nil_r. }
  split; [rewrite Hsent; apply Permutation_refl|]. rewrite Hsent.
  split; [rewrite length_map; apply length_map_to_list|].
  intros p. rewrite in_map_iff. split.
  - intros [[k q] [Hq Hin]]. cbn [snd] in Hq. subst q. exists k.
    apply elem_of_map_to_list, list_elem_of_In. exact Hin.
  - intros [k Hk]. exists (k, p). split; [reflexivity|].
    apply list_elem_of_In, elem_of_map_to_list. exact Hk.
Qed.

Lemma loop_turn_sends_ledger_witness :
  length (sent_packets (fst (Sender.sendThreadFunc Sender.InWait one_outstanding)))
  = size (Sender.unackedPackets_ one_outstanding)
  /\ In ping_packet
       (sent_packets (fst (Sender.sendThreadFunc Sender.InWait one_outstanding))).
Proof.
  assert (H1 : Sender.running_ one_outstanding = true) by reflexivity.
  assert (H2 : Sender.InWait <> Sender.Exited) by discriminate.
  destruct (loop_turn_sends_ledger Sender.InWait one_outstanding H1 H2)
    as (_ & Hlen & Hin).
  split; [exact Hlen|]. apply Hin. exists 0. reflexivity.
Defined.

(** ** The sender of secure_udp_example and main *)

(** A send() of secure_udp_example whose encryption works puts exactly
    one datagram on the wire, of forty bytes more than the message,
    carrying the current sequence number, the time and the random nonce,
    and moves the counter on by one; a send() whose context allocation
    fails sends nothing and leaves the counter where it was. *)
Theorem example_send_packet (key rnd : list Z) (now : Z) (message : list Z)
    (s : ExampleSender.SecureUdpSender) :
  0 <= ExampleSender.sequence_ s < 2 ^ 32 ->
  Z.of_nat (length message) < 2 ^ 31 ->
  length rnd = 12%nat ->
  (exists packet ct tag,
     ExampleSender.send key true rnd now message s
     = ([EvSendTo packet],
        {| ExampleSender.sequence_ := u32 (ExampleSender.sequence_ s + 1) |})
     /\ length packet = (40 + length message)%nat
     /\ parse packet
        = Some {| pkt_seq := ExampleSender.sequence_ s;
                  pkt_timestamp := u64 now; pkt_nonce := rnd;
                  pkt_cipher := ct; pkt_tag := tag |})
  /\ ExampleSender.send key false rnd now message s = ([EvStderr], s).
Proof.
  intros Hs Hp Hr. split; [|reflexivity].
  pose proof (openssl_encrypt_ok rnd key message Hp) as Henc. cbv zeta in Henc.
  rewrite (take_app_length' rnd (repeat 0 12%nat) 12) in Henc
    by (symmetry; exact Hr).
  set (ct := GCM.ctr (firstn 32 key) (firstn 12 rnd) message) in *.
  set (tag := GCM.tag (firstn 32 key) (firstn 12 rnd) [] ct) in *.
  exists (frame (ExampleSender.sequence_ s) (u64 now) rnd ct tag), ct, tag.
  split; [unfold ExampleSender.send; rewrite Henc; reflexivity|].
  split.
  - rewrite length_frame, Hr. subst tag ct. rewrite length_tag, length_ctr. lia.
  - apply parse_frame; [exact Hs | apply Z.mod_pos_bound; lia | exact Hr |].
    subst tag. apply length_tag.
Qed.

Lemma example_send_packet_witness :
  ExampleSender.send key32 true (repeat 0 12%nat) 1000 ping ExampleSender.init
  = ([EvSendTo ping_packet], {| ExampleSender.sequence_ := 1 |})
  /\ ExampleSender.send key32 false (repeat 0 12%nat) 1000 ping ExampleSender.init
     = ([EvStderr], ExampleSender.init).
Proof.
  assert (H1 : 0 <= ExampleSender.sequence_ ExampleSender.init < 2 ^ 32)
    by (simpl; lia).
  assert (H2 : Z.of_nat (length ping) < 2 ^ 31) by (simpl; lia).
  assert (H3 : length (repeat 0 12%nat) = 12%nat) by reflexivity.
  destruct (example_send_packet key32 (repeat 0 12%nat) 1000 ping
              ExampleSender.init H1 H2 H3) as [_ Hfail].
  split; [vm_compute; reflexivity | exact Hfail].
Defined.

(** A message of at most 1460 bytes that the sender of
    secure_udp_example sends reaches the callback of a running receiver
    with the same key once, byte for byte. *)
Theorem sent_message_is_delivered (key rnd : list Z) (now : Z)
    (message : list Z) (s : ExampleSender.SecureUdpSender)
    (r : Receiver.SecureUdpReceiver) :
  0 <= ExampleSender.sequence_ s < 2 ^ 32 ->
  (length message <= 1460)%nat ->
  Receiver.running_ r = true -> Receiver.callback_ r = true ->
  Receiver.callbacks
    (Receiver.receiveThreadFunc key (OpenSSLImpl.aes_gcm_decrypt true) r
       (sent_packets (fst (ExampleSender.send key true rnd now message s))))
  = [message].
Proof.
  intros Hs Hlen Hrun Hcb.
  destruct (example_end_to_end key rnd now message s r Hs Hlen Hcb)
    as (packet & Hsend & Hrecv).
  rewrite Hsend. cbn [fst sent_packets flat_map app].
  unfold Receiver.receiveThreadFunc. rewrite Hrun. cbn [flat_map].
  rewrite Hrecv. reflexivity.
Qed.

Lemma sent_message_is_delivered_witness :
  Receiver.callbacks
    (Receiver.receiveThreadFunc key32 (OpenSSLImpl.aes_gcm_decrypt true) listening
       (sent_packets
          (fst (ExampleSender.send key32 true (repeat 0 12%nat) 1000 ping
                  ExampleSender.init))))
  = [ping].
Proof.
  assert (H1 : 0 <= ExampleSender.sequence_ ExampleSender.init < 2 ^ 32)
    by (simpl; lia).
  assert (H2 : le (length ping) 1460) by (simpl; lia).
  assert (H3 : Receiver.running_ listening = true) by reflexivity.
  assert (H4 : Receiver.callback_ listening = true) by reflexivity.
  exact (sent_message_is_delivered key32 (repeat 0 12%nat) 1000 ping
           ExampleSender.init listening H1 H2 H3 H4).
Defined.

Lemma loop_until_exit (key : list Z)
    (stdin : list (((bool * list Z) * Z) * list Z))
    (s : ExampleSender.SecureUdpSender) (r : Receiver.SecureUdpReceiver) :
  0 <= ExampleSender.sequence_ s < 2 ^ 32 ->
  Forall (fun e => fst (fst (fst e)) = true /\ (length (snd e) <= 1460)%nat) stdin ->
  In Main.exit_line (List.map snd stdin) ->
  Receiver.running_ r = true -> Receiver.callback_ r = true ->
  exists ev s',
    Main.loop key stdin s = Some (ev, s')
    /\ Receiver.callbacks
         (Receiver.receiveThreadFunc key (OpenSSLImpl.aes_gcm_decrypt true) r
            (sent_packets ev))
       = Main.before_exit (List.map snd stdin)
    /\ length (sent_packets ev) = length (Main.before_exit (List.map snd stdin)).
Proof.
  intros Hs Hok Hexit Hrun Hcb. revert s Hs.
  induction stdin as [|[[[a rnd] now] input] rest IH]; intros s Hs.
  - destruct Hexit.
  - cbn [Main.loop List.map snd Main.before_exit].
    destruct (bool_decide (input = Main.exit_line)) eqn:E.
    + exists [], s. repeat split.
      unfold Receiver.receiveThreadFunc. rewrite Hrun. reflexivity.
    + apply bool_decide_eq_false_1 in E.
      apply Forall_cons in Hok. destruct Hok as [[Ha Hlen] Hok].
      cbn [fst snd] in Ha, Hlen. subst a.
      destruct (example_end_to_end key rnd now input s r Hs Hlen Hcb)
        as (packet & Hsend & Hrecv).
      rewrite Hsend.
      destruct (IH Hok) with
        (s := {| ExampleSender.sequence_ := u32 (ExampleSender.sequence_ s + 1) |})
        as (evs & s' & Hloop & Hdel & Hcount).
      * cbn [List.map In] in Hexit. destruct Hexit as [Hx|Hx]; [|exact Hx].
        cbn [snd] in Hx. congruence.
      * cbn [ExampleSender.sequence_]. apply Z.mod_pos_bound. lia.
      * rewrite Hloop. exists ([EvSendTo packet] ++ evs), s'.
        split; [reflexivity|].
        rewrite sent_packets_app. cbn [sent_packets flat_map app].
        fold (sent_packets evs).
        split; [|cbn [length]; rewrite Hcount; reflexivity].
        unfold Receiver.receiveThreadFunc in *. rewrite Hrun in *.
        cbn [flat_map]. rewrite callbacks_app, Hrecv, Hdel. reflexivity.
Qed.

Lemma loop_without_exit (key : list Z)
    (stdin : list (((bool * list Z) * Z) * list Z))
    (s : ExampleSender.SecureUdpSender) :
  ~ In Main.exit_line (List.map snd stdin) -> Main.loop key stdin s = None.
Proof.
  revert s; induction stdin as [|[[[a rnd] now] input] rest IH]; intros s Hno.
  - reflexivity.
  - cbn [Main.loop]. cbn [List.map In snd] in Hno.
    rewrite bool_decide_eq_false_2 by (intros E; apply Hno; left; exact E).
    destruct (ExampleSender.send key a rnd now input s) as [ev s'].
    rewrite IH by (intros Hin; apply Hno; right; exact Hin). reflexivity.
Qed.

(** The input loop of main sends the lines it reads in front of the
    first "exit", one datagram each and in order, and leaves at that
    line: lines after it are not sent.  A running receiver with the same
    key hands exactly the lines sent to its callback (lines of at most
    1460 bytes, encryption working).  Without an "exit" line the loop is
    not left. *)
Theorem main_sends_until_exit (key : list Z)
    (stdin : list (((bool * list Z) * Z) * list Z))
    (r : Receiver.SecureUdpReceiver) :
  Forall (fun e => fst (fst (fst e)) = true /\ (length (snd e) <= 1460)%nat) stdin ->
  Receiver.running_ r = true -> Receiver.callback_ r = true ->
  (In Main.exit_line (List.map snd stdin) ->
   exists ev sender,
     Main.loop key stdin ExampleSender.init = Some (ev, sender)
     /\ Receiver.callbacks
          (Receiver.receiveThreadFunc key (OpenSSLImpl.aes_gcm_decrypt true) r
             (sent_packets ev))
        = Main.before_exit (List.map snd stdin)
     /\ length (sent_packets ev) = length (Main.before_exit (List.map snd stdin)))
  /\ (~ In Main.exit_line (List.map snd stdin) ->
      Main.loop key stdin ExampleSender.init = None).
Proof.
  intros Hok Hrun Hcb. split.
  - intros Hexit.
    apply (loop_until_exit key stdin ExampleSender.init r); try assumption.
    cbn. lia.
  - intros Hno. apply loop_without_exit. exact Hno.
Qed.

Lemma main_sends_until_exit_witness :
  exists ev sender,
    Main.loop key32
      [(true, repeat 0 12%nat, 1000, ping); (true, [], 1001, Main.exit_line);
       (true, [], 1002, ping)] ExampleSender.init
    = Some (ev, sender)
    /\ Receiver.callbacks (example_receive (sent_packets ev)) = [ping].
Proof.
  assert (H1 : Forall (fun e : bool * list Z * Z * list Z =>
                         fst (fst (fst e)) = true /\ le (length (snd e)) 1460)
                 [(true, repeat 0 12%nat, 1000, ping);
                  (true, [], 1001, Main.exit_line); (true, [], 1002, ping)]).
  { repeat (apply Forall_cons; split; [split; [reflexivity|simpl; lia]|]).
    apply Forall_nil. exact I. }
  assert (H2 : Receiver.running_ listening = true) by reflexivity.
  assert (H3 : Receiver.callback_ listening = true) by reflexivity.
  destruct (main_sends_until_exit key32 _ listening H1 H2 H3) as [Hexit _].
  destruct Hexit as (ev & sender & Hloop & Hdel & _).
  { cbn [List.map snd In]. right. left. reflexivity. }
  exists ev, sender. split; [exact Hloop|exact Hdel].
Defined.

Lemma in_sent_packets (p : list Z) (trace : list Event) :
  In p (sent_packets trace) <-> In (EvSendTo p) trace.
Proof.
  unfold sent_packets. rewrite in_flat_map. split.
  - intros [e [He Hp]]. destruct e; cbn [In] in Hp; try contradiction.
    destruct Hp as [->|[]]. exact He.
  - intros He. exists (EvSendTo p). split; [exact He|left; reflexivity].
Qed.

(** What a successful send() stores is what goes out: the next turn of
    the retransmit loop, from the loop test or from the wait, sends the
    packet just framed, and that packet parses back into the sequence
    number the call worked with, the time, the nonce drawn, and the
    ciphertext and tag that aes_gcm_encrypt returned. *)
Theorem stored_packet_is_resent (key : list Z) enc draws (now : Z)
    (data ct tag : list Z) (s : Sender.SecureUdpSender) (pc : Sender.LoopPc) :
  0 <= Sender.seq_ s < 2 ^ 32 ->
  Sender.running_ s = true -> pc <> Sender.Exited ->
  enc key (Sender.generateNonce draws) data = Some (ct, tag) ->
  length tag = 16%nat ->
  let '(ret, ev, s') := Sender.send key enc draws now data s in
  let packet :=
    frame (Sender.seq_ s) (u64 now) (Sender.generateNonce draws) ct tag in
  ret = true
  /\ ev = [EvLock; EvUnlock; EvNotifyOne]
  /\ Sender.unackedPackets_ s' !! Sender.seq_ s = Some packet
  /\ In packet (sent_packets (fst (Sender.sendThreadFunc pc s')))
  /\ length packet = (40 + length ct)%nat
  /\ parse packet
     = Some {| pkt_seq := Sender.seq_ s; pkt_timestamp := u64 now;
               pkt_nonce := Sender.generateNonce draws;
               pkt_cipher := ct; pkt_tag := tag |}.
Proof.
  intros Hs Hrun Hpc Henc Htag.
  rewrite (send_success key enc draws now data ct tag s Henc).
  split; [reflexivity|]. split; [reflexivity|].
  split; [cbn [Sender.unackedPackets_]; apply lookup_insert_eq|].
  split.
  - apply in_sent_packets. apply (loop_presents pc _ (Sender.seq_ s)).
    + cbn [Sender.unackedPackets_]. apply lookup_insert_eq.
    + exact Hrun.
    + exact Hpc.
  - split.
    + rewrite length_frame, length_generateNonce, Htag. lia.
    + apply parse_frame; [exact Hs | apply Z.mod_pos_bound; lia
                          | apply length_generateNonce | exact Htag].
Qed.

Lemma stored_packet_is_resent_witness :
  In ping_packet
    (sent_packets
       (fst (Sender.sendThreadFunc Sender.InWait
               (snd (Sender.send key32 sodium_encrypt12 zero_draws 1000 ping
                       Sender.init))))).
Proof.
  assert (H1 : 0 <= Sender.seq_ Sender.init < 2 ^ 32) by (simpl; lia).
  assert (H2 : Sender.running_ Sender.init = true) by reflexivity.
  assert (H3 : Sender.InWait <> Sender.Exited) by discriminate.
  assert (H4 : sodium_encrypt12 key32 (Sender.generateNonce zero_draws) ping
               = Some ([126; 213; 219; 185],
                       [13; 254; 225; 52; 177; 237; 113; 190;
                        82; 81; 206; 137; 116; 152; 135; 199]))
    by (vm_compute; reflexivity).
  assert (H5 : length [13; 254; 225; 52; 177; 237; 113; 190;
                       82; 81; 206; 137; 116; 152; 135; 199] = 16%nat)
    by reflexivity.
  pose proof (stored_packet_is_resent key32 sodium_encrypt12 zero_draws 1000
                ping _ _ Sender.init Sender.InWait H1 H2 H3 H4 H5) as H.
  rewrite (send_success key32 sodium_encrypt12 zero_draws 1000 ping _ _
             Sender.init H4) in H.
  destruct H as (_ & _ & _ & Hin & _).
  rewrite (send_success key32 sodium_encrypt12 zero_draws 1000 ping _ _
             Sender.init H4).
  exact Hin.
Defined.
